(** * Capitol-trades scraper: the one-shot crawler and the polling monitor

    A shallow embedding of [scrape_congress_trades.py] and [trade_monitor.py].

    The two scripts talk to three things outside themselves: the web
    (through [requests.get]), the HTML tree (through BeautifulSoup's
    selectors) and the CSV file (through [csv.DictWriter]/[csv.DictReader]).
    Each is modelled by what the scripts can observe of it:

    - a web is a function from URLs to the outcome of one GET request;
    - a document is what the three queries of the scripts return on it;
    - a CSV file is the list of its rows, each a list of fields (the
      [csv] module's writer and reader are taken to be inverse to each
      other on rows, so a file changes exactly when a row is written).

    Text is modelled by byte strings; [strip] and [lower] act on ASCII. *)

From Stdlib Require Import ZArith Ascii String.
From stdpp Require Import gmap strings list fin_maps pretty.

Local Open Scope string_scope.
Local Open Scope list_scope.
Local Open Scope nat_scope.

#[local] Set Warnings "-clear-no-such-hyp".

(** ** Strings *)

Module Str.

(** [bool(s)] for a Python string. *)
Definition truthy (s : string) : bool :=
  match s with EmptyString => false | String _ _ => true end.

(** The ASCII characters for which [str.isspace] holds. *)
Definition isspace (c : ascii) : bool :=
  let n := nat_of_ascii c in
  (((9 <=? n) && (n <=? 13)) || ((28 <=? n) && (n <=? 32)))%nat.

Fixpoint lstrip (s : string) : string :=
  match s with
  | String c s' => if isspace c then lstrip s' else s
  | EmptyString => EmptyString
  end.

Definition rstrip (s : string) : string :=
  String.rev (lstrip (String.rev s)).

(** [s.strip()] *)
Definition strip (s : string) : string := rstrip (lstrip s).

Definition lower_ascii (c : ascii) : ascii :=
  let n := nat_of_ascii c in
  if ((65 <=? n) && (n <=? 90))%nat then ascii_of_nat (n + 32)%nat else c.

(** [s.lower()] *)
Fixpoint lower (s : string) : string :=
  match s with
  | String c s' => String (lower_ascii c) (lower s')
  | EmptyString => EmptyString
  end.

(** ["".join(l)] *)
Definition join (l : list string) : string := foldr String.app "" l.

End Str.

(** ** Documents *)

(** A [<td>]: the text nodes below it, in document order. *)
Record Td := { td_strings : list string }.

(** A [<table>]: the tokens of its [class] attribute and, for every
    element [table.select("tbody tr")] returns, in document order, the
    cells [row.find_all("td")] returns on it. *)
Record Table := { table_class : list string; tbody_tr : list (list Td) }.

(** An [<a>] with the two attributes the navigator looks at. *)
Record Anchor := { aria_label : option string; href : option string }.

(** A parsed page: its tables and its anchors, in document order. *)
Record Document := { doc_tables : list Table; doc_anchors : list Anchor }.

(** [td.get_text(strip=True)]: every text node stripped, the empty ones
    dropped, the rest joined without a separator. *)
Definition get_text_strip (c : Td) : string :=
  Str.join (filter (λ s, s ≠ "") (Str.strip <$> td_strings c)).

Definition TABLE_CLASSES : list string :=
  ["w-full"; "caption-bottom"; "text-size-3"; "text-txt"].

Definition has_classes (cs : list string) (t : Table) : bool :=
  forallb (λ c, bool_decide (c ∈ table_class t)) cs.

(** [soup.select_one("table.w-full.caption-bottom.text-size-3.text-txt")] *)
Definition select_one_table (soup : Document) : option Table :=
  List.find (has_classes TABLE_CLASSES) (doc_tables soup).

Definition NEXT_LABEL : string := "Go to next page".

Definition has_label (l : string) (a : Anchor) : bool :=
  bool_decide (aria_label a = Some l).

(** [soup.select_one('a[aria-label="Go to next page"]')] *)
Definition select_one_next (soup : Document) : option Anchor :=
  List.find (has_label NEXT_LABEL) (doc_anchors soup).

(** ** Records *)

Record Trade := {
  Politician : string;
  Issuer : string;
  PublishedDate : string;
  TradedDate : string;
  DaysAfter : string;
  Owner : string;
  Type_ : string;
  SizeRange : string;
  Price : string
}.

Definition fieldnames : list string :=
  ["Politician"; "Issuer"; "PublishedDate"; "TradedDate";
   "DaysAfter"; "Owner"; "Type"; "SizeRange"; "Price"].

(** The row [DictWriter.writerow(t)] writes: the values of [t] in the
    order of [fieldnames]. *)
Definition csv_row (t : Trade) : list string :=
  [Politician t; Issuer t; PublishedDate t; TradedDate t;
   DaysAfter t; Owner t; Type_ t; SizeRange t; Price t].

(** The key the monitor builds for a scraped record. *)
Definition unique_id (t : Trade) : string :=
  ((Politician t +:+ TradedDate t) +:+ Issuer t) +:+ Type_ t.

(** ** The world the scripts run in *)

(** The subclasses of [requests.exceptions.RequestException] that matter. *)
Inductive request_exception :=
  | ConnectionError
  | Timeout
  | TooManyRedirects
  | HTTPError (status_code : Z).

(** Python exceptions. *)
Inductive exn :=
  | RequestException (e : request_exception)
  | FileNotFoundError (path : string)
  | KeyError (key : string)
  | TypeError
  | IndexError.

(** What [requests.get(url, headers=..., timeout=10)] does on one URL:
    it raises, or it answers with a status and a body; the body is kept
    as the document [BeautifulSoup(resp.text, "html.parser")] builds.
    An answer whose body the parser refuses has no document and is not
    among these outcomes: what is proved of a page that was fetched is
    proved of answers the parser accepts. *)
Inductive get_outcome :=
  | GetRaises (e : request_exception)
  | GetResponse (status_code : Z) (soup : Document).

Definition Web := string → get_outcome.

(** What the scripts do to the outside, in the order they do it. *)
Inductive event :=
  | EvGet (url : string)
  | EvPrint (msg : string)
  | EvStderr (url : string) (e : request_exception)
  | EvSleep (seconds : nat).

(** The mutable state: the files (a path to its CSV rows), the one set
    object [main_loop] creates and hands to [check_for_new_trades] by
    reference, and the events so far. *)
Record World := {
  files : gmap string (list (list string));
  known_ids : gset string;
  trace : list event
}.

(** The result of running a piece of code: a value, an uncaught
    exception, or a loop that was not done when the fuel ran out. *)
Inductive outcome (A : Type) :=
  | Val (a : A)
  | Exc (e : exn)
  | OutOfFuel.
Arguments Val {A} a.
Arguments Exc {A} e.
Arguments OutOfFuel {A}.

(** State and exceptions: the world is kept when an exception is raised. *)
Definition M (A : Type) : Type := World → outcome A * World.

#[global] Instance M_ret : MRet M := λ A a w, (Val a, w).

#[global] Instance M_bind : MBind M := λ A B k m w,
  match m w with
  | (Val a, w') => k a w'
  | (Exc e, w') => (Exc e, w')
  | (OutOfFuel, w') => (OutOfFuel, w')
  end.

Definition raise {A} (e : exn) : M A := λ w, (Exc e, w).

Definition out_of_fuel {A} : M A := λ w, (OutOfFuel, w).

(** [try: body / except RequestException as e: handler(e)] *)
Definition try_except_request {A} (body : M A)
    (handler : request_exception → M A) : M A := λ w,
  match body w with
  | (Exc (RequestException e), w') => handler e w'
  | r => r
  end.

(** [try: body / except FileNotFoundError: handler] *)
Definition try_except_not_found {A} (body : M A) (handler : M A) : M A := λ w,
  match body w with
  | (Exc (FileNotFoundError _), w') => handler w'
  | r => r
  end.

(** The world after some more events. *)
Definition logged (w : World) (evs : list event) : World :=
  {| files := files w; known_ids := known_ids w; trace := trace w ++ evs |}.

Definition emit (ev : event) : M unit := λ w, (Val tt, logged w [ev]).

Definition print (msg : string) : M unit := emit (EvPrint msg).

Definition sleep (seconds : nat) : M unit := emit (EvSleep seconds).

Definition get_known : M (gset string) := λ w, (Val (known_ids w), w).

Definition set_known (k : gset string) : M unit := λ w,
  (Val tt, {| files := files w; known_ids := k; trace := trace w |}).

Definition set_files (fs : gmap string (list (list string))) : M unit := λ w,
  (Val tt, {| files := fs; known_ids := known_ids w; trace := trace w |}).

Definition get_files : M (gmap string (list (list string))) := λ w,
  (Val (files w), w).

(** ** Files *)

(** [open(path, "w")]: the file is created or truncated. *)
Definition open_write (path : string) : M unit :=
  fs ← get_files; set_files (<[path := []]> fs).

(** [open(path, "a")]: the file is created when it is not there. *)
Definition open_append (path : string) : M unit :=
  fs ← get_files;
  match fs !! path with
  | Some _ => mret tt
  | None => set_files (<[path := []]> fs)
  end.

(** One [writer.writerow]/[writer.writeheader] on an open file. A file
    is kept as the rows [csv.reader] yields on it, and a row is taken to
    be read back as it was written; the [csv] module does so for fields
    within its field size limit, and the statements that read back what
    the scripts wrote assume that limit. *)
Definition write_row (path : string) (row : list string) : M unit :=
  fs ← get_files; set_files (<[path := default [] (fs !! path) ++ [row]]> fs).

(** [open(path, "r")] and the rows [csv.reader] yields on it. *)
Definition read_rows (path : string) : M (list (list string)) :=
  fs ← get_files;
  match fs !! path with
  | Some rows => mret rows
  | None => raise (FileNotFoundError path)
  end.

(** ** Code shared by the two scripts *)

Definition BASE_URL : string := "https://www.capitoltrades.com".
Definition CSV_FILE : string := "capitol_trades.csv".
Definition START_URL : string := "https://www.capitoltrades.com/trades?page=1".

(** [requests.get]: one request goes out, the web answers. *)
Definition requests_get (web : Web) (url : string) : M (Z * Document) :=
  emit (EvGet url);;
  match web url with
  | GetRaises e => raise (RequestException e)
  | GetResponse status_code soup => mret (status_code, soup)
  end.

(** [resp.raise_for_status()]: client and server errors raise. *)
Definition raise_for_status (status_code : Z) : M unit :=
  if ((400 <=? status_code) && (status_code <? 600))%Z
  then raise (RequestException (HTTPError status_code))
  else mret tt.

(** [fetch_page]: the parsed page, or [None] on any [RequestException]. *)
Definition fetch_page (web : Web) (url : string) : M (option Document) :=
  try_except_request
    (resp ← requests_get web url;
     raise_for_status resp.1;;
     mret (Some resp.2))
    (λ e, emit (EvStderr url e);; mret None).

(** [cols[i]] *)
Definition cols_get (cols : list Td) (i : nat) : M Td :=
  match cols !! i with
  | Some c => mret c
  | None => raise IndexError
  end.

(** The body of [for row in rows] in [parse_trades_from_soup]. *)
Definition parse_row (cols : list Td) (trades_data : list Trade)
    : M (list Trade) :=
  if (length cols <? 9)%nat then mret trades_data
  else
    c0 ← cols_get cols 0; let politician_name := get_text_strip c0 in
    c1 ← cols_get cols 1; let traded_issuer := get_text_strip c1 in
    c2 ← cols_get cols 2; let published_date := get_text_strip c2 in
    c3 ← cols_get cols 3; let traded_date := get_text_strip c3 in
    c4 ← cols_get cols 4; let days_diff := get_text_strip c4 in
    c5 ← cols_get cols 5; let owner_str := get_text_strip c5 in
    c6 ← cols_get cols 6; let tx_type := Str.lower (get_text_strip c6) in
    c7 ← cols_get cols 7; let size_str := get_text_strip c7 in
    c8 ← cols_get cols 8; let price_str := get_text_strip c8 in
    mret (trades_data ++
          [ {| Politician := politician_name; Issuer := traded_issuer;
               PublishedDate := published_date; TradedDate := traded_date;
               DaysAfter := days_diff; Owner := owner_str; Type_ := tx_type;
               SizeRange := size_str; Price := price_str |} ]).

Fixpoint parse_rows (rows : list (list Td)) (trades_data : list Trade)
    : M (list Trade) :=
  match rows with
  | [] => mret trades_data
  | cols :: rows' =>
      trades_data' ← parse_row cols trades_data; parse_rows rows' trades_data'
  end.

Definition parse_trades_from_soup (soup : Document) : M (list Trade) :=
  match select_one_table soup with
  | None => print "[!] Could not find the main trades table.";; mret []
  | Some table => parse_rows (tbody_tr table) []
  end.

Definition find_next_page_url (soup : Document) : option string :=
  match select_one_next soup with
  | Some next_link =>
      match href next_link with
      | Some relative =>
          if Str.truthy relative then Some (BASE_URL +:+ relative) else None
      | None => None
      end
  | None => None
  end.

(** [bool(current_url)] for a variable holding a string or [None]. *)
Definition truthy_url (u : option string) : bool :=
  match u with Some s => Str.truthy s | None => false end.

(** ** scrape_congress_trades.py: the one-shot crawler *)

(** [for t in trades: writer.writerow(t)] *)
Fixpoint write_all (path : string) (trades : list Trade) : M unit :=
  match trades with
  | [] => mret tt
  | t :: trades' => write_row path (csv_row t);; write_all path trades'
  end.

(** The [while] loop of [scrape_capitol_trades]; one unit of fuel pays
    for one run of its body. *)
Fixpoint scrape_loop (web : Web) (output_csv : string) (fuel : nat)
    (current_url : option string) (visited : gset string) {struct fuel}
    : M unit :=
  match current_url with
  | Some u =>
      if Str.truthy u && bool_decide (u ∉ visited) then
        match fuel with
        | O => out_of_fuel
        | S fuel' =>
            let visited := visited ∪ {[u]} in
            print ("[*] Scraping: " +:+ u);;
            soup ← fetch_page web u;
            match soup with
            | None =>
                print ("[!] Skipping page due to fetch error: " +:+ u)
            | Some soup =>
                trades ← parse_trades_from_soup soup;
                write_all output_csv trades;;
                let next_page := find_next_page_url soup in
                sleep 1;;
                scrape_loop web output_csv fuel' next_page visited
            end
        end
      else mret tt
  | None => mret tt
  end.

Definition scrape_capitol_trades (web : Web) (fuel : nat)
    (start_url output_csv : string) : M unit :=
  open_write output_csv;;
  write_row output_csv fieldnames;;
  scrape_loop web output_csv fuel (Some start_url) ∅;;
  print ("[+] Finished scraping. CSV saved to " +:+ output_csv).

(** ** trade_monitor.py: the polling monitor *)

(** The row [csv.DictReader] yields for a line: the header zipped with
    the fields, later columns overriding earlier ones of the same name,
    and [None] for the columns a short line leaves out. *)
Definition dict_row (header row : list string) : gmap string (option string) :=
  foldl (λ d kv, <[kv.1 := kv.2]> d) ∅
    (zip header ((Some <$> row) ++ replicate (length header - length row) None)).

(** [row[key]] *)
Definition dict_getitem (d : gmap string (option string)) (key : string)
    : M (option string) :=
  match d !! key with
  | Some v => mret v
  | None => raise (KeyError key)
  end.

(** [a + b] on values that are strings or [None]. *)
Definition py_add (a b : option string) : M (option string) :=
  match a, b with
  | Some x, Some y => mret (Some (x +:+ y))
  | _, _ => raise TypeError
  end.

(** The key [load_known_ids] builds for a stored row. *)
Definition row_unique_id (row : gmap string (option string)) : M string :=
  p ← dict_getitem row "Politician";
  d ← dict_getitem row "TradedDate";
  pd ← py_add p d;
  i ← dict_getitem row "Issuer";
  pdi ← py_add pd i;
  t ← dict_getitem row "Type";
  r ← py_add pdi t;
  match r with
  | Some unique_id => mret unique_id
  | None => raise TypeError
  end.

(** [for row in reader]: the reader skips the empty lines. *)
Fixpoint load_rows (header : list string) (rows : list (list string))
    (known : gset string) : M (gset string) :=
  match rows with
  | [] => mret known
  | [] :: rows' => load_rows header rows' known
  | r :: rows' =>
      unique_id ← row_unique_id (dict_row header r);
      load_rows header rows' (known ∪ {[unique_id]})
  end.

Definition load_known_ids (csv_path : string) : M (gset string) :=
  try_except_not_found
    (rows ← read_rows csv_path;
     match rows with
     | [] => mret ∅
     | header :: rows' => load_rows header rows' ∅
     end)
    (print ("[!] " +:+ csv_path +:+ " not found, starting fresh.");; mret ∅).

(** [for t in trades] in [check_for_new_trades]: a record is written,
    indexed and counted when its key is not in the set. *)
Fixpoint write_new_trades (csv_path : string) (trades : list Trade)
    (new_count : nat) : M nat :=
  match trades with
  | [] => mret new_count
  | t :: trades' =>
      known ← get_known;
      if bool_decide (unique_id t ∉ known) then
        write_row csv_path (csv_row t);;
        set_known (known ∪ {[unique_id t]});;
        write_new_trades csv_path trades' (new_count + 1)
      else write_new_trades csv_path trades' new_count
  end.

(** The [while] loop of [check_for_new_trades]; [break] and the end of
    the loop both go to [return new_count]. *)
Fixpoint check_loop (web : Web) (csv_path : string) (fuel : nat)
    (new_count : nat) (current_url : string) (visited : gset string)
    {struct fuel} : M nat :=
  if Str.truthy current_url && bool_decide (current_url ∉ visited) then
    match fuel with
    | O => out_of_fuel
    | S fuel' =>
        let visited := visited ∪ {[current_url]} in
        print ("[*] Checking page: " +:+ current_url);;
        soup ← fetch_page web current_url;
        match soup with
        | None => mret new_count
        | Some soup =>
            trades ← parse_trades_from_soup soup;
            match trades with
            | [] => mret new_count
            | _ :: _ =>
                open_append csv_path;;
                new_count ← write_new_trades csv_path trades new_count;
                match find_next_page_url soup with
                | Some next_url =>
                    if Str.truthy next_url && (size visited <? 3)%nat
                    then check_loop web csv_path fuel' new_count next_url visited
                    else mret new_count
                | None => mret new_count
                end
            end
        end
    end
  else mret new_count.

Definition check_for_new_trades (web : Web) (fuel : nat) (csv_path : string)
    : M nat :=
  check_loop web csv_path fuel 0 START_URL ∅.

(** [while True] in [main_loop], for as many cycles as there is fuel;
    the web may differ from one cycle to the next. *)
Fixpoint main_cycles (webs : nat → Web) (fuel : nat) (cycle : nat)
    (cycles : nat) : M unit :=
  match cycles with
  | O => out_of_fuel
  | S cycles' =>
      print "[+] Checking for new trades…";;
      new_trades_found ← check_for_new_trades (webs cycle) fuel CSV_FILE;
      (if (0 <? new_trades_found)%nat
       then print ("[+] Found " +:+ pretty new_trades_found +:+ " new trades!")
       else print "[+] No new trades at this time.");;
      sleep 3600;;
      main_cycles webs fuel (S cycle) cycles'
  end.

Definition main_loop (webs : nat → Web) (fuel : nat) (cycles : nat) : M unit :=
  known ← load_known_ids CSV_FILE;
  set_known known;;
  main_cycles webs fuel 0 cycles.

(** ** The extractor and the navigator, as the specification words them *)

#[global] Instance Td_inhabited : Inhabited Td := populate {| td_strings := [] |}.

(** The record read off the first nine cells of a row. *)
Definition record_of_cells (cols : list Td) : Trade :=
  {| Politician := get_text_strip (cols !!! 0%nat);
     Issuer := get_text_strip (cols !!! 1%nat);
     PublishedDate := get_text_strip (cols !!! 2%nat);
     TradedDate := get_text_strip (cols !!! 3%nat);
     DaysAfter := get_text_strip (cols !!! 4%nat);
     Owner := get_text_strip (cols !!! 5%nat);
     Type_ := Str.lower (get_text_strip (cols !!! 6%nat));
     SizeRange := get_text_strip (cols !!! 7%nat);
     Price := get_text_strip (cols !!! 8%nat) |}.

(** A row is malformed when it has fewer than nine cells. *)
Definition malformed (cols : list Td) : Prop := (length cols < 9)%nat.

#[global] Instance malformed_dec cols : Decision (malformed cols) :=
  decide (length cols < 9).

(** The rows that are not malformed, each turned into a record, in the
    order of the document. *)
Definition accepted_records (rows : list (list Td)) : list Trade :=
  record_of_cells <$> filter (λ cols, ¬ malformed cols) rows.

(** ** What a traversal reads and what it changes *)

Definition empty_world : World :=
  {| files := ∅; known_ids := ∅; trace := [] |}.

(** The value a computation returns from the empty world. *)
Definition value_of {A} (d : A) (m : M A) : A :=
  match (m empty_world).1 with Val a => a | _ => d end.

(** The events a computation adds from the empty world. *)
Definition events_of {A} (m : M A) : list event := trace (m empty_world).2.

(** The page [fetch_page] returns for a URL, if any. *)
Definition fetched (web : Web) (url : string) : option Document :=
  value_of None (fetch_page web url).

(** The records [parse_trades_from_soup] returns on a page. *)
Definition extracted (soup : Document) : list Trade :=
  value_of [] (parse_trades_from_soup soup).

(** The file system after [open(path, "a")]. *)
Definition touch (path : string) (fs : gmap string (list (list string)))
    : gmap string (list (list string)) :=
  match fs !! path with Some _ => fs | None => <[path := []]> fs end.

(** The file system after some rows were written at the end of a file. *)
Definition append_rows (path : string) (rows : list (list string))
    (fs : gmap string (list (list string))) : gmap string (list (list string)) :=
  match rows with
  | [] => fs
  | _ :: _ => <[path := default [] (fs !! path) ++ rows]> fs
  end.

(** The records of a sequence that are new to an index: those whose key
    is neither in the index nor the key of an earlier record. *)
Fixpoint new_trades (known : gset string) (trades : list Trade) : list Trade :=
  match trades with
  | [] => []
  | t :: trades' =>
      if bool_decide (unique_id t ∉ known)
      then t :: new_trades (known ∪ {[unique_id t]}) trades'
      else new_trades known trades'
  end.

(** The keys of a sequence of records. *)
Definition keys_of (trades : list Trade) : gset string :=
  list_to_set (unique_id <$> trades).

(** The records one incremental traversal reads, page after page: the
    control flow of the loop of [check_for_new_trades], without its
    writes. *)
Fixpoint encountered (web : Web) (fuel : nat) (current_url : string)
    (visited : gset string) {struct fuel} : list Trade :=
  if Str.truthy current_url && bool_decide (current_url ∉ visited) then
    match fuel with
    | O => []
    | S fuel' =>
        let visited := visited ∪ {[current_url]} in
        match fetched web current_url with
        | None => []
        | Some soup =>
            match extracted soup with
            | [] => []
            | trades =>
                trades ++
                match find_next_page_url soup with
                | Some next_url =>
                    if Str.truthy next_url && (size visited <? 3)%nat
                    then encountered web fuel' next_url visited
                    else []
                | None => []
                end
            end
        end
    end
  else [].

(** The file system after the file was opened for appending, if any
    records were read at all. *)
Definition opened (path : string) (trades : list Trade)
    (fs : gmap string (list (list string))) : gmap string (list (list string)) :=
  match trades with [] => fs | _ :: _ => touch path fs end.

(** The world after an incremental traversal that read [trades] and
    caused the events [evs]: the new records are at the end of the file
    and the keys of all the records read are in the index. *)
Definition after_run (path : string) (w : World) (evs : list event)
    (trades : list Trade) : World :=
  {| files := append_rows path (csv_row <$> new_trades (known_ids w) trades)
                (opened path trades (files w));
     known_ids := known_ids w ∪ keys_of trades;
     trace := trace w ++ evs |}.

(** A fetch fails when the request raises or the status is an error. *)
Definition fetch_fails (web : Web) (url : string) : Prop :=
  match web url with
  | GetRaises _ => True
  | GetResponse status_code _ => (400 ≤ status_code < 600)%Z
  end.

(** The rows of a file, none when the file is not there. *)
Definition rows_of (path : string) (w : World) : list (list string) :=
  default [] (files w !! path).

(** [chain web u us stop]: the pages at [u] and then at [us] can all be
    fetched, each one's next-page link leads to the one after it, and
    the navigator gives [stop] on the last. *)
Fixpoint chain (web : Web) (u : string) (us : list string)
    (stop : option string) : Prop :=
  ∃ soup, fetched web u = Some soup ∧
    match us with
    | [] => find_next_page_url soup = stop
    | u' :: us' => find_next_page_url soup = Some u' ∧ chain web u' us' stop
    end.

(** The world when the crawler enters its loop: the file holds the
    header row and nothing else. *)
Definition crawl_start (output_csv : string) (w : World) : World :=
  {| files := <[output_csv := [fieldnames]]> (files w);
     known_ids := known_ids w; trace := trace w |}.

(** The URLs requested in a trace, in order. *)
Definition requests (tr : list event) : list string :=
  omap (λ ev, match ev with EvGet url => Some url | _ => None end) tr.

(** The key as the specification words it: the concatenation of
    Politician, TradedDate, Issuer and Type, with nothing in between. *)
Definition joined_fields (t : Trade) : string :=
  String.concat "" [Politician t; TradedDate t; Issuer t; Type_ t].

(** The exception with which the fetch of a URL fails, if it fails: the
    one the request raises, or the one [raise_for_status] raises on an
    error status. *)
Definition failure_of (web : Web) (url : string) : option request_exception :=
  match web url with
  | GetRaises e => Some e
  | GetResponse status_code _ =>
      if ((400 <=? status_code) && (status_code <? 600))%Z
      then Some (HTTPError status_code) else None
  end.

(** [leads web u pages v]: from [u] on, a traversal of the monitor goes
    through the pages [pages], each given with its URL: each is fetched,
    has records and links to the next one, and the last links to [v]
    (without pages, [v] is [u]). *)
Fixpoint leads (web : Web) (u : string) (pages : list (string * Document))
    (v : string) : Prop :=
  match pages with
  | [] => u = v
  | (u', soup) :: pages' =>
      u = u' ∧ fetched web u = Some soup ∧ extracted soup ≠ []
      ∧ ∃ next, find_next_page_url soup = Some next ∧ leads web next pages' v
  end.

(** The records of such pages, in the order read. *)
Definition records_of (pages : list (string * Document)) : list Trade :=
  concat ((λ p, extracted p.2) <$> pages).

(** What the monitor prints and requests when it goes through [pages]
    and the fetch of [v] then fails with [e]: one line and one request
    per page, and after the failed request nothing but its error. *)
Fixpoint visit_log (pages : list (string * Document)) (v : string)
    (e : request_exception) : list event :=
  match pages with
  | [] => [EvPrint ("[*] Checking page: " +:+ v); EvGet v; EvStderr v e]
  | (u, _) :: pages' =>
      EvPrint ("[*] Checking page: " +:+ u) :: EvGet u :: visit_log pages' v e
  end.

(** The longest field [csv.reader] accepts: a longer one makes it raise
    [_csv.Error], which [load_known_ids] does not catch. *)
Definition FIELD_SIZE_LIMIT : Z := 131072.

(** A field [csv.reader] reads back as [csv.writer] wrote it: it is
    within the size limit, and it has no NUL character, which readers
    before Python 3.11 refuse. *)
Definition reads_back (field : string) : bool :=
  (Z.of_nat (String.length field) <=? FIELD_SIZE_LIMIT)%Z
  && forallb (λ c, negb (Ascii.eqb c "000"%char)) (list_ascii_of_string field).

(** A record whose nine fields can be read back once written. *)
Definition within_field_limit (t : Trade) : Prop :=
  Forall (λ field, reads_back field = true) (csv_row t).

(** ** Sample pages *)

Module Sample.

Definition td (s : string) : Td := {| td_strings := [s] |}.

Definition row9 (p i pd d da o ty sz pr : string) : list Td :=
  [td p; td i; td pd; td d; td da; td o; td ty; td sz; td pr].

Definition trades_table (rows : list (list Td)) : Table :=
  {| table_class := ["w-full"; "caption-bottom"; "text-size-3"; "text-txt"];
     tbody_tr := rows |}.

Definition next_link (target : string) : Anchor :=
  {| aria_label := Some "Go to next page"; href := Some target |}.

Definition prev_link (target : string) : Anchor :=
  {| aria_label := Some "Go to previous page"; href := Some target |}.

Definition page (rows : list (list Td)) (anchors : list Anchor) : Document :=
  {| doc_tables := [trades_table rows]; doc_anchors := anchors |}.

(** A page with one well-formed row between two malformed ones. *)
Definition mixed_page : Document :=
  page [ [td "x"];
         row9 " Jane Roe " "Acme Corp" "3 Nov 2025" "1 Nov 2025" "2" "Self"
              "BUY" "1K-15K" "10.00";
         [td "a"; td "b"; td "c"; td "d"; td "e"; td "f"; td "g"; td "h"] ]
       [prev_link "/trades?page=1"; next_link "/trades?page=3"].

(** A page whose only table is not the trades table. *)
Definition other_page : Document :=
  {| doc_tables := [ {| table_class := ["w-full"; "text-txt"];
                        tbody_tr := [row9 "a" "b" "c" "d" "e" "f" "g" "h" "i"] |} ];
     doc_anchors := [ {| aria_label := Some "Go to next page"; href := None |} ] |}.

End Sample.

(** ** Sample sites and records *)

Module Site.

Import Sample.

(** A site with the given pages; every other URL refuses the connection. *)
Fixpoint serve (pages : list (string * Document)) : Web := λ url,
  match pages with
  | [] => GetRaises ConnectionError
  | (u, soup) :: pages' =>
      if bool_decide (url = u) then GetResponse 200 soup else serve pages' url
  end.

Definition jane : Trade :=
  {| Politician := "Jane Roe"; Issuer := "Acme Corp";
     PublishedDate := "3 Nov 2025"; TradedDate := "1 Nov 2025";
     DaysAfter := "2"; Owner := "Self"; Type_ := "buy";
     SizeRange := "1K-15K"; Price := "10.00" |}.

(** The same trade as [jane] by the four key fields, at another price. *)
Definition jane_repriced : Trade :=
  {| Politician := "Jane Roe"; Issuer := "Acme Corp";
     PublishedDate := "4 Nov 2025"; TradedDate := "1 Nov 2025";
     DaysAfter := "3"; Owner := "Self"; Type_ := "buy";
     SizeRange := "15K-50K"; Price := "12.50" |}.

Definition john : Trade :=
  {| Politician := "John Doe"; Issuer := "Initech";
     PublishedDate := "3 Nov 2025"; TradedDate := "30 Oct 2025";
     DaysAfter := "4"; Owner := "Spouse"; Type_ := "sell";
     SizeRange := "50K-100K"; Price := "7.25" |}.

(** Another issuer and another type than [john], yet the same key. *)
Definition john_shifted : Trade :=
  {| Politician := "John Doe"; Issuer := "Initechs";
     PublishedDate := "3 Nov 2025"; TradedDate := "30 Oct 2025";
     DaysAfter := "4"; Owner := "Spouse"; Type_ := "ell";
     SizeRange := "50K-100K"; Price := "7.25" |}.

Definition row_of (t : Trade) : list Td := td <$> csv_row t.

Definition page2_url : string := "https://www.capitoltrades.com/trades?page=2".

(** Two pages: [jane] and [john] on the first, [jane] again at another
    price and [john]'s look-alike on the second. *)
Definition two_pages : Web :=
  serve [ (START_URL, page [row_of jane; [td "x"]; row_of john]
                           [next_link "/trades?page=2"]);
          (page2_url, page [row_of jane_repriced; row_of john_shifted] []) ].

(** A first page that links to a second page the site does not serve. *)
Definition broken_link : Web :=
  serve [ (START_URL, page [row_of jane] [next_link "/trades?page=2"]) ].

(** A second page whose next-page link leads back to the first. *)
Definition loop_back : Web :=
  serve [ (START_URL, page [row_of jane] [next_link "/trades?page=2"]);
          (page2_url, page [row_of john] [next_link "/trades?page=1"]) ].

(** A site that refuses every connection. *)
Definition down : Web := serve [].

(** A first page without the trades table. *)
Definition no_table : Web := serve [ (START_URL, other_page) ].

(** One page with one record. *)
Definition one_record : Web :=
  serve [ (START_URL, page [row_of jane] []) ].

(** One page with two records. *)
Definition two_records : Web :=
  serve [ (START_URL, page [row_of jane; row_of john] []) ].

(** The world after a full crawl of [one_record] from the empty world:
    the file holds the header and one row. *)
Definition crawled : World :=
  (scrape_capitol_trades one_record 2 START_URL CSV_FILE empty_world).2.

(** The part of a URL after the base URL. *)
Fixpoint drop (n : nat) (s : string) : string :=
  match n, s with
  | S n', String _ s' => drop n' s'
  | _, _ => s
  end.

(** A site that never runs out of pages: every page has one record and
    a next-page link to a page number with one more digit. *)
Definition endless : Web := λ url,
  GetResponse 200
    (page [row_of john]
          [next_link (drop (String.length BASE_URL) url +:+ "0")]).

End Site.

(** One start of the monitor followed by one check, as in [main_loop]:
    the index is built from the file, then the traversal runs. *)
Definition start_and_check (web : Web) (fuel : nat) (csv_path : string)
    : M nat :=
  known ← load_known_ids csv_path;
  set_known known;;
  check_for_new_trades web fuel csv_path.

(** ** The rest of the two scripts *)

(** [main] of the crawler: the first page and the default file name. *)
Definition main (web : Web) (fuel : nat) : M unit :=
  let start_url := "https://www.capitoltrades.com/trades?page=1" in
  scrape_capitol_trades web fuel start_url "capitol_trades.csv".

(** The records a full crawl reads, page after page: the control flow
    of the loop of [scrape_capitol_trades], without its writes. *)
Fixpoint scraped (web : Web) (fuel : nat) (current_url : option string)
    (visited : gset string) {struct fuel} : list Trade :=
  match current_url with
  | Some u =>
      if Str.truthy u && bool_decide (u ∉ visited) then
        match fuel with
        | O => []
        | S fuel' =>
            match fetched web u with
            | None => []
            | Some soup =>
                extracted soup ++
                scraped web fuel' (find_next_page_url soup) (visited ∪ {[u]})
            end
        end
      else []
  | None => []
  end.

(** The lengths of the pauses in a trace, in order. *)
Definition sleeps (tr : list event) : list nat :=
  omap (λ ev, match ev with EvSleep n => Some n | _ => None end) tr.

(** What one run of the crawler's loop does: it returns or runs out of
    fuel, appends the rows of the records it reads, and requests no URL
    twice and none already visited, pausing at most once per request. *)
Definition scrape_loop_summary (web : Web) (output_csv : string) (fuel : nat)
    (current_url : option string) (visited : gset string) (w : World) : Prop :=
  ∃ r evs,
    scrape_loop web output_csv fuel current_url visited w =
      (r, {| files := append_rows output_csv
                        (csv_row <$> scraped web fuel current_url visited)
                        (files w);
             known_ids := known_ids w;
             trace := trace w ++ evs |})
    ∧ (r = Val tt ∨ r = OutOfFuel)
    ∧ NoDup (requests evs)
    ∧ (∀ x, x ∈ requests evs → x ∉ visited)
    ∧ length (sleeps evs) ≤ length (requests evs).

(** The key of a stored row under the header the crawler writes: the
    columns Politician, TradedDate, Issuer and Type, in that order. *)
Definition stored_key (row : list string) : string :=
  ((row !!! 0 +:+ row !!! 3) +:+ row !!! 1) +:+ row !!! 6.

(** * Properties *)

(** ** Running monadic code *)

Lemma bind_val {A B} (m : M A) (k : A → M B) w a w' :
  m w = (Val a, w') → (m ≫= k) w = k a w'.
Proof. intros H. unfold mbind, M_bind. by rewrite H. Qed.

Lemma logged_logged w evs evs' :
  logged (logged w evs) evs' = logged w (evs ++ evs').
Proof. unfold logged. simpl. by rewrite <- app_assoc. Qed.

Lemma logged_nil w : logged w [] = w.
Proof. destruct w. unfold logged. simpl. by rewrite app_nil_r. Qed.

Ltac run := unfold mbind, M_bind, mret, M_ret, raise, emit, print, sleep; simpl.

Lemma fetch_page_raises web url w e :
  web url = GetRaises e →
  fetch_page web url w = (Val None, logged w [EvGet url; EvStderr url e]).
Proof.
  intros H. unfold fetch_page, try_except_request, requests_get. run.
  rewrite H. by rewrite logged_logged.
Qed.

Lemma fetch_page_status web url w status_code soup :
  web url = GetResponse status_code soup →
  fetch_page web url w =
    if ((400 <=? status_code) && (status_code <? 600))%Z
    then (Val None, logged w [EvGet url; EvStderr url (HTTPError status_code)])
    else (Val (Some soup), logged w [EvGet url]).
Proof.
  intros H. unfold fetch_page, try_except_request, requests_get, raise_for_status. run.
  rewrite H. simpl. destruct (_ && _); simpl; by rewrite ?logged_logged.
Qed.

(** ** The extractor *)

Lemma parse_row_spec cols trades_data w :
  parse_row cols trades_data w =
    (Val (if decide (malformed cols) then trades_data
          else trades_data ++ [record_of_cells cols]), w).
Proof.
  unfold parse_row, malformed.
  destruct (Nat.ltb_spec (length cols) 9) as [Hlt|Hge].
  - by rewrite decide_True.
  - rewrite decide_False by lia.
    do 9 (destruct cols as [|? cols]; [simpl in Hge; lia|]).
    reflexivity.
Qed.

Lemma parse_rows_spec rows trades_data w :
  parse_rows rows trades_data w =
    (Val (trades_data ++ accepted_records rows), w).
Proof.
  revert trades_data. induction rows as [|cols rows IH]; intros trades_data.
  - simpl. by rewrite app_nil_r.
  - simpl. rewrite (bind_val _ _ _ _ _ (parse_row_spec _ _ _)), IH.
    unfold accepted_records. rewrite filter_cons.
    destruct (decide (malformed cols)).
    + by rewrite decide_False by tauto.
    + rewrite decide_True by tauto. by rewrite fmap_cons, <- app_assoc.
Qed.

(** C6: when the page has the trades table, extraction returns, in the
    order of the document, the record of every body row with at least
    nine cells and nothing for the rows with fewer; the rows with fewer
    than nine cells have no influence on the result. *)
Theorem extraction_skips_malformed_rows soup table w :
  select_one_table soup = Some table →
  parse_trades_from_soup soup w = (Val (accepted_records (tbody_tr table)), w)
  ∧ (∀ before cols after,
       malformed cols →
       parse_rows (before ++ cols :: after) [] w =
       parse_rows (before ++ after) [] w)
  ∧ (∀ before after,
       accepted_records (before ++ after) =
       accepted_records before ++ accepted_records after).
Proof.
  intros Hsel. split; [|split].
  - unfold parse_trades_from_soup. rewrite Hsel. by rewrite parse_rows_spec.
  - intros before cols after Hbad. rewrite !parse_rows_spec. do 2 f_equal.
    unfold accepted_records. rewrite !filter_app, filter_cons.
    by rewrite decide_False by tauto.
  - intros before after. unfold accepted_records.
    by rewrite filter_app, fmap_app.
Qed.

Lemma extraction_skips_malformed_rows_witness :
  parse_trades_from_soup Sample.mixed_page empty_world =
    (Val [ {| Politician := "Jane Roe"; Issuer := "Acme Corp";
              PublishedDate := "3 Nov 2025"; TradedDate := "1 Nov 2025";
              DaysAfter := "2"; Owner := "Self"; Type_ := "buy";
              SizeRange := "1K-15K"; Price := "10.00" |} ],
     empty_world).
Proof.
  exact (proj1 (extraction_skips_malformed_rows Sample.mixed_page
                  (Sample.trades_table _) empty_world eq_refl)).
Defined.

Lemma find_none_Forall {A} (f : A → bool) (l : list A) :
  Forall (λ x, f x = false) l → List.find f l = None.
Proof. induction 1 as [|x l Hx _ IH]; simpl; [done|]. by rewrite Hx. Qed.

Lemma find_first {A} (f : A → bool) (pre : list A) (x : A) (post : list A) :
  Forall (λ y, f y = false) pre → f x = true →
  List.find f (pre ++ x :: post) = Some x.
Proof.
  intros Hpre Hx. induction Hpre as [|y pre Hy _ IH]; simpl.
  - by rewrite Hx.
  - by rewrite Hy.
Qed.

(** C7: on a page none of whose tables carries the four classes of the
    trades table, extraction returns the empty list, raises nothing and
    only prints a warning. *)
Theorem extraction_without_table soup w :
  Forall (λ t, has_classes TABLE_CLASSES t = false) (doc_tables soup) →
  parse_trades_from_soup soup w =
    (Val [], logged w [EvPrint "[!] Could not find the main trades table."]).
Proof.
  intros H. unfold parse_trades_from_soup, select_one_table.
  by rewrite (find_none_Forall _ _ H).
Qed.

Lemma extraction_without_table_witness :
  parse_trades_from_soup Sample.other_page empty_world =
    (Val [], logged empty_world
               [EvPrint "[!] Could not find the main trades table."]).
Proof.
  apply (extraction_without_table Sample.other_page empty_world).
  repeat constructor.
Defined.

(** ** The navigator *)

Lemma has_label_false l a : aria_label a ≠ Some l → has_label l a = false.
Proof. intros H. unfold has_label. by rewrite bool_decide_eq_false. Qed.

Lemma select_one_next_first soup pre a post :
  doc_anchors soup = pre ++ a :: post →
  Forall (λ b, aria_label b ≠ Some NEXT_LABEL) pre →
  aria_label a = Some NEXT_LABEL →
  select_one_next soup = Some a.
Proof.
  intros Hdoc Hpre Ha. unfold select_one_next. rewrite Hdoc.
  apply find_first.
  - eapply Forall_impl; [exact Hpre|]. intros b Hb. by apply has_label_false.
  - unfold has_label. by rewrite bool_decide_eq_true.
Qed.

(** C8: let the next-page control be the first anchor of the page whose
    aria-label is "Go to next page". When it exists and has a non-empty
    href, the navigator returns the base URL followed by that href; when
    no anchor has the label, or the control has no href or an empty one,
    it returns nothing. *)
Theorem next_page_url_concatenates soup :
  (∀ pre a post relative,
     doc_anchors soup = pre ++ a :: post →
     Forall (λ b, aria_label b ≠ Some NEXT_LABEL) pre →
     aria_label a = Some NEXT_LABEL →
     href a = Some relative → relative ≠ "" →
     find_next_page_url soup = Some (BASE_URL +:+ relative))
  ∧ (Forall (λ b, aria_label b ≠ Some NEXT_LABEL) (doc_anchors soup) →
     find_next_page_url soup = None)
  ∧ (∀ pre a post,
     doc_anchors soup = pre ++ a :: post →
     Forall (λ b, aria_label b ≠ Some NEXT_LABEL) pre →
     aria_label a = Some NEXT_LABEL →
     href a = None ∨ href a = Some "" →
     find_next_page_url soup = None).
Proof.
  split; [|split].
  - intros pre a post relative Hdoc Hpre Ha Hhref Hne.
    unfold find_next_page_url.
    rewrite (select_one_next_first _ _ _ _ Hdoc Hpre Ha), Hhref.
    by destruct relative.
  - intros Hall. unfold find_next_page_url, select_one_next.
    rewrite find_none_Forall; [done|].
    eapply Forall_impl; [exact Hall|]. intros b Hb. by apply has_label_false.
  - intros pre a post Hdoc Hpre Ha Hhref.
    unfold find_next_page_url.
    rewrite (select_one_next_first _ _ _ _ Hdoc Hpre Ha).
    by destruct Hhref as [-> | ->].
Qed.

Lemma next_page_url_concatenates_witness :
  find_next_page_url Sample.mixed_page =
    Some "https://www.capitoltrades.com/trades?page=3"
  ∧ find_next_page_url Sample.other_page = None
  ∧ find_next_page_url (Sample.page [] []) = None.
Proof.
  split; [|split].
  - apply (proj1 (next_page_url_concatenates Sample.mixed_page)
             [Sample.prev_link "/trades?page=1"]
             (Sample.next_link "/trades?page=3") [] "/trades?page=3");
      [reflexivity | repeat constructor; discriminate | reflexivity
      | reflexivity | discriminate].
  - apply (proj2 (proj2 (next_page_url_concatenates Sample.other_page))
             [] {| aria_label := Some "Go to next page"; href := None |} []);
      [reflexivity | constructor | reflexivity | by left].
  - apply (proj1 (proj2 (next_page_url_concatenates (Sample.page [] [])))).
    constructor.
Defined.

(** ** The fetcher *)

(** C3, as the code has it: when the request raises, or the answer has
    a client or server error status (400 to 599), [fetch_page] raises
    nothing and returns [None], the same value for every cause; the
    cause only goes to the error stream. *)
Theorem fetch_page_returns_none_on_failure web url w :
  (∀ e, web url = GetRaises e →
     fetch_page web url w =
       (Val None, logged w [EvGet url; EvStderr url e]))
  ∧ (∀ status_code soup,
       web url = GetResponse status_code soup →
       (400 ≤ status_code < 600)%Z →
       fetch_page web url w =
         (Val None, logged w [EvGet url; EvStderr url (HTTPError status_code)])).
Proof.
  split.
  - intros e Hweb. by apply fetch_page_raises.
  - intros status_code soup Hweb Hrange.
    rewrite (fetch_page_status _ _ _ _ _ Hweb).
    replace ((400 <=? status_code)%Z && (status_code <? 600)%Z) with true;
      [done|]. symmetry. apply andb_true_iff. split; lia.
Qed.

Lemma fetch_page_returns_none_on_failure_witness :
  fetch_page (λ _, GetResponse 503 Sample.other_page) START_URL
    empty_world =
  (Val None, logged empty_world
               [EvGet START_URL; EvStderr START_URL (HTTPError 503)])
  ∧ fetch_page (λ _, GetRaises Timeout) START_URL empty_world =
    (Val None, logged empty_world
                 [EvGet START_URL; EvStderr START_URL Timeout]).
Proof.
  split.
  - apply (proj2 (fetch_page_returns_none_on_failure
             (λ _, GetResponse 503 Sample.other_page) START_URL
             empty_world) 503%Z Sample.other_page);
      [reflexivity | lia].
  - apply (proj1 (fetch_page_returns_none_on_failure
             (λ _, GetRaises Timeout) START_URL empty_world) Timeout).
    reflexivity.
Defined.

(** C3 as stated fails: a timeout and a refused connection give the
    same return value, so no function of the return value tells the
    causes apart; and a status outside 200 to 299 that is not an error
    status (here 304) is not a failure at all. *)
Lemma fetch_page_does_not_classify :
  (fetch_page (λ _, GetRaises Timeout) START_URL empty_world).1 =
    Val None
  ∧ (fetch_page (λ _, GetRaises ConnectionError) START_URL
       empty_world).1 = Val None
  ∧ (fetch_page (λ _, GetResponse 404 Sample.other_page) START_URL
       empty_world).1 = Val None
  ∧ (fetch_page (λ _, GetResponse 304 Sample.other_page) START_URL
       empty_world).1 = Val (Some Sample.other_page)
  ∧ ¬ (∃ classify : option Document → request_exception,
         ∀ (web : Web) url w e, web url = GetRaises e →
           ∃ r w', fetch_page web url w = (Val r, w') ∧ classify r = e).
Proof.
  repeat split; try reflexivity.
  intros [classify H].
  destruct (H (λ _, GetRaises Timeout) START_URL empty_world Timeout
              eq_refl) as (r1 & w1 & H1 & C1).
  destruct (H (λ _, GetRaises ConnectionError) START_URL empty_world
              ConnectionError eq_refl) as (r2 & w2 & H2 & C2).
  rewrite (fetch_page_raises _ _ _ Timeout eq_refl) in H1.
  rewrite (fetch_page_raises _ _ _ ConnectionError eq_refl) in H2.
  congruence.
Qed.

(** ** Effects of the building blocks *)

Lemma fetch_page_run web url w :
  fetch_page web url w =
    (Val (fetched web url), logged w (events_of (fetch_page web url))).
Proof.
  unfold fetched, value_of, events_of.
  destruct (web url) as [e|status_code soup] eqn:Hweb.
  - by rewrite !(fetch_page_raises _ _ _ _ Hweb).
  - rewrite !(fetch_page_status _ _ _ _ _ Hweb). by destruct (_ && _).
Qed.

Lemma parse_run soup w :
  parse_trades_from_soup soup w =
    (Val (extracted soup), logged w (events_of (parse_trades_from_soup soup))).
Proof.
  unfold extracted, value_of, events_of, parse_trades_from_soup.
  destruct (select_one_table soup) as [table|].
  - rewrite !parse_rows_spec. simpl. by rewrite logged_nil.
  - reflexivity.
Qed.

Lemma append_rows_app path rows1 rows2 fs :
  append_rows path rows2 (append_rows path rows1 fs) =
  append_rows path (rows1 ++ rows2) fs.
Proof.
  destruct rows1 as [|r1 rows1]; [done|].
  destruct rows2 as [|r2 rows2]; [by rewrite app_nil_r|].
  unfold append_rows. simpl.
  rewrite lookup_insert_eq, insert_insert_eq. simpl.
  by rewrite <- app_assoc.
Qed.

Lemma write_row_run path row w :
  write_row path row w =
    (Val tt, {| files := append_rows path [row] (files w);
                known_ids := known_ids w; trace := trace w |}).
Proof. reflexivity. Qed.

Lemma open_append_run path w :
  open_append path w =
    (Val tt, {| files := touch path (files w);
                known_ids := known_ids w; trace := trace w |}).
Proof.
  unfold open_append, touch, get_files, set_files. run.
  destruct (files w !! path); [by destruct w|done].
Qed.

Lemma keys_of_cons t trades :
  keys_of (t :: trades) = {[unique_id t]} ∪ keys_of trades.
Proof. reflexivity. Qed.

Lemma keys_of_app l1 l2 : keys_of (l1 ++ l2) = keys_of l1 ∪ keys_of l2.
Proof. unfold keys_of. rewrite fmap_app. apply list_to_set_app_L. Qed.

Lemma write_new_trades_run path trades new_count w :
  write_new_trades path trades new_count w =
    (Val (new_count + length (new_trades (known_ids w) trades)),
     {| files := append_rows path (csv_row <$> new_trades (known_ids w) trades)
                   (files w);
        known_ids := known_ids w ∪ keys_of trades;
        trace := trace w |}).
Proof.
  revert new_count w. induction trades as [|t trades IH]; intros new_count w.
  - simpl. run. rewrite Nat.add_0_r. destruct w; simpl.
    change (keys_of []) with (∅ : gset string).
    by rewrite (right_id_L ∅ (∪)).
  - simpl. unfold get_known. run.
    destruct (bool_decide (unique_id t ∉ known_ids w)) eqn:Hnew.
    + unfold set_known, get_files, set_files. simpl.
      rewrite IH. simpl. f_equal; [f_equal; lia|].
      f_equal.
      * change (<[path:=default [] (files w !! path) ++ [csv_row t]]> (files w))
          with (append_rows path [csv_row t] (files w)).
        by rewrite append_rows_app.
      * rewrite keys_of_cons. set_solver.
    + rewrite IH. f_equal. f_equal.
      apply bool_decide_eq_false in Hnew. apply dec_stable in Hnew.
      rewrite keys_of_cons. set_solver.
Qed.

(** ** One turn of the monitor's loop *)

Section CheckLoop.

Variable web : Web.
Variable csv_path : string.

Lemma check_loop_stop fuel new_count current_url visited w :
  Str.truthy current_url && bool_decide (current_url ∉ visited) = false →
  check_loop web csv_path fuel new_count current_url visited w =
    (Val new_count, w).
Proof. intros H. destruct fuel; simpl; by rewrite H. Qed.

Lemma check_loop_turn fuel new_count current_url visited w :
  Str.truthy current_url && bool_decide (current_url ∉ visited) = true →
  check_loop web csv_path (S fuel) new_count current_url visited w =
    let evs1 := EvPrint ("[*] Checking page: " +:+ current_url)
                :: events_of (fetch_page web current_url) in
    match fetched web current_url with
    | None => (Val new_count, logged w evs1)
    | Some soup =>
        let evs2 := evs1 ++ events_of (parse_trades_from_soup soup) in
        match extracted soup with
        | [] => (Val new_count, logged w evs2)
        | trades =>
            let w' := after_run csv_path w evs2 trades in
            let new_count' :=
              new_count + length (new_trades (known_ids w) trades) in
            match find_next_page_url soup with
            | Some next_url =>
                if Str.truthy next_url
                   && (size (visited ∪ {[current_url]}) <? 3)%nat
                then check_loop web csv_path fuel new_count' next_url
                       (visited ∪ {[current_url]}) w'
                else (Val new_count', w')
            | None => (Val new_count', w')
            end
        end
    end.
Proof.
  intros Hcond. simpl. rewrite Hcond.
  unfold print. unfold mbind at 1, M_bind at 1. unfold emit at 1.
  unfold mbind at 1, M_bind at 1. rewrite fetch_page_run, logged_logged.
  destruct (fetched web current_url) as [soup|]; [|done].
  unfold mbind at 1, M_bind at 1. rewrite parse_run, logged_logged.
  destruct (extracted soup) as [|t trades] eqn:Hext; [done|].
  unfold mbind at 1, M_bind at 1. rewrite open_append_run.
  unfold mbind at 1, M_bind at 1. rewrite write_new_trades_run.
  destruct (find_next_page_url soup) as [next_url|]; [|reflexivity].
  destruct (Str.truthy next_url && _); reflexivity.
Qed.

Lemma encountered_stop fuel current_url visited :
  Str.truthy current_url && bool_decide (current_url ∉ visited) = false →
  encountered web fuel current_url visited = [].
Proof. intros H. destruct fuel; simpl; by rewrite H. Qed.

Lemma encountered_turn fuel current_url visited :
  Str.truthy current_url && bool_decide (current_url ∉ visited) = true →
  encountered web (S fuel) current_url visited =
    match fetched web current_url with
    | None => []
    | Some soup =>
        match extracted soup with
        | [] => []
        | trades =>
            trades ++
            match find_next_page_url soup with
            | Some next_url =>
                if Str.truthy next_url
                   && (size (visited ∪ {[current_url]}) <? 3)%nat
                then encountered web fuel next_url (visited ∪ {[current_url]})
                else []
            | None => []
            end
        end
    end.
Proof. intros H. simpl. by rewrite H. Qed.

Lemma new_trades_app known l1 l2 :
  new_trades known (l1 ++ l2) =
  new_trades known l1 ++ new_trades (known ∪ keys_of l1) l2.
Proof.
  revert known. induction l1 as [|t l1 IH]; intros known; simpl.
  - change (keys_of []) with (∅ : gset string).
    by rewrite (right_id_L ∅ (∪)).
  - rewrite keys_of_cons. case_bool_decide as Hnew.
    + rewrite IH. simpl. do 3 f_equal. set_solver.
    + rewrite IH. do 2 f_equal. set_solver.
Qed.

Lemma touch_touch path fs : touch path (touch path fs) = touch path fs.
Proof.
  unfold touch. destruct (fs !! path) eqn:H; [by rewrite H|].
  by rewrite lookup_insert_eq.
Qed.

Lemma touch_append_rows path rows fs :
  touch path (append_rows path rows (touch path fs)) =
  append_rows path rows (touch path fs).
Proof.
  destruct rows as [|r rows]; [apply touch_touch|].
  unfold append_rows. unfold touch at 1. by rewrite lookup_insert_eq.
Qed.

Lemma after_run_nil w evs : after_run csv_path w evs [] = logged w evs.
Proof.
  unfold after_run, logged. simpl. change (keys_of []) with (∅ : gset string).
  by rewrite (right_id_L ∅ (∪)).
Qed.

Lemma after_run_app w evs1 evs2 t trades1 trades2 :
  after_run csv_path (after_run csv_path w evs1 (t :: trades1)) evs2 trades2 =
  after_run csv_path w (evs1 ++ evs2) ((t :: trades1) ++ trades2).
Proof.
  unfold after_run. cbn [files known_ids trace opened]. f_equal.
  - rewrite new_trades_app, fmap_app, <- append_rows_app. f_equal.
    change (match (t :: trades1) ++ trades2 with [] => files w
            | _ :: _ => touch csv_path (files w) end)
      with (touch csv_path (files w)).
    destruct trades2; [done|]. cbn [opened]. apply touch_append_rows.
  - rewrite keys_of_app. set_solver.
  - by rewrite <- app_assoc.
Qed.

Lemma requests_app tr1 tr2 : requests (tr1 ++ tr2) = requests tr1 ++ requests tr2.
Proof. apply omap_app. Qed.

Lemma requests_fetch_page url :
  requests (events_of (fetch_page web url)) = [url].
Proof.
  unfold events_of. destruct (web url) as [e|status_code soup] eqn:Hweb.
  - by rewrite (fetch_page_raises _ _ _ _ Hweb).
  - rewrite (fetch_page_status _ _ _ _ _ Hweb). by destruct (_ && _).
Qed.

Lemma requests_parse soup :
  requests (events_of (parse_trades_from_soup soup)) = [].
Proof.
  unfold events_of, parse_trades_from_soup.
  destruct (select_one_table soup); [|done]. by rewrite parse_rows_spec.
Qed.

Lemma size_visit (visited : gset string) url :
  url ∉ visited → size (visited ∪ {[url]}) = S (size visited).
Proof.
  intros H. rewrite size_union by set_solver. rewrite size_singleton. lia.
Qed.

Lemma loop_condition current_url (visited : gset string) :
  Str.truthy current_url && bool_decide (current_url ∉ visited) = true →
  current_url ≠ "" ∧ current_url ∉ visited.
Proof.
  intros [H1 H2]%andb_true_iff. apply bool_decide_eq_true in H2.
  split; [by destruct current_url|done].
Qed.

(** The whole loop: what it returns, the world it leaves and how many
    requests it makes. *)
Lemma check_loop_run fuel : ∀ new_count current_url visited w,
  ∃ r evs,
    check_loop web csv_path fuel new_count current_url visited w =
      (r, after_run csv_path w evs (encountered web fuel current_url visited))
    ∧ (r = OutOfFuel ∨
       r = Val (new_count +
                length (new_trades (known_ids w)
                          (encountered web fuel current_url visited))))
    ∧ (1 ≤ fuel → 3 ≤ size visited + fuel → r ≠ OutOfFuel)
    ∧ length (requests evs) ≤ Nat.max 1 (3 - size visited).
Proof.
  induction fuel as [|fuel IH]; intros new_count current_url visited w.
  - destruct (Str.truthy current_url && bool_decide (current_url ∉ visited))
      eqn:Hcond.
    + exists OutOfFuel, []. simpl. rewrite Hcond.
      rewrite after_run_nil, logged_nil. repeat split; [by left|lia|simpl; lia].
    + exists (Val new_count), [].
      rewrite check_loop_stop, encountered_stop by done.
      rewrite after_run_nil, logged_nil. simpl.
      repeat split; [right; f_equal; lia|done|lia].
  - destruct (Str.truthy current_url && bool_decide (current_url ∉ visited))
      eqn:Hcond.
    2:{ exists (Val new_count), [].
        rewrite check_loop_stop, encountered_stop by done.
        rewrite after_run_nil, logged_nil. simpl.
        repeat split; [right; f_equal; lia|done|lia]. }
    rewrite check_loop_turn, encountered_turn by done.
    destruct (loop_condition _ _ Hcond) as [_ Hfresh].
    pose proof (size_visit _ _ Hfresh) as Hsize.
    cbv zeta.
    set (evs1 := EvPrint ("[*] Checking page: " +:+ current_url)
                 :: events_of (fetch_page web current_url)).
    assert (Hreq1 : length (requests evs1) = 1).
    { unfold evs1. change (requests (?e :: ?l)) with (requests l).
      by rewrite requests_fetch_page. }
    destruct (fetched web current_url) as [soup|].
    2:{ exists (Val new_count), evs1. rewrite after_run_nil, Hreq1.
        repeat split; [right; simpl; f_equal; lia|done|lia]. }
    set (evs2 := evs1 ++ events_of (parse_trades_from_soup soup)).
    assert (Hreq2 : length (requests evs2) = 1).
    { unfold evs2. by rewrite requests_app, requests_parse, app_nil_r. }
    destruct (extracted soup) as [|t trades].
    { exists (Val new_count), evs2. rewrite after_run_nil, Hreq2.
      repeat split; [right; simpl; f_equal; lia|done|lia]. }
    set (n' := new_count + length (new_trades (known_ids w) (t :: trades))).
    assert (Hlast : ∃ r evs,
      (Val n', after_run csv_path w evs2 (t :: trades)) =
        (r, after_run csv_path w evs ((t :: trades) ++ []))
      ∧ (r = OutOfFuel ∨
         r = Val (new_count +
                  length (new_trades (known_ids w) ((t :: trades) ++ []))))
      ∧ (1 ≤ S fuel → 3 ≤ size visited + S fuel → r ≠ OutOfFuel)
      ∧ length (requests evs) ≤ Nat.max 1 (3 - size visited)).
    { exists (Val n'), evs2. rewrite app_nil_r, Hreq2.
      repeat split; [by right|done|lia]. }
    destruct (find_next_page_url soup) as [next_url|]; [|exact Hlast].
    destruct (Str.truthy next_url) eqn:Hnext; [|exact Hlast].
    destruct (Nat.ltb_spec (size (visited ∪ {[current_url]})) 3) as [Hlt|Hge];
      [|exact Hlast].
    clear Hlast. simpl andb. cbv iota.
    destruct (IH n' next_url (visited ∪ {[current_url]})
                (after_run csv_path w evs2 (t :: trades)))
      as (r & evs & Hrun & Hr & Hfuel & Hreq).
    exists r, (evs2 ++ evs). rewrite Hrun, after_run_app.
    split; [done|]. split; [|split].
    + destruct Hr as [->| ->]; [by left|right]. f_equal.
      rewrite (new_trades_app _ (t :: trades)), length_app.
      unfold n'. cbn [known_ids after_run]. lia.
    + intros _ H3. apply Hfuel; lia.
    + rewrite requests_app, length_app, Hreq2. lia.
Qed.

End CheckLoop.

(** ** The monitor's traversal *)

(** The traversal from its first page. *)
Lemma check_for_new_trades_run web fuel csv_path w :
  ∃ r evs,
    check_for_new_trades web fuel csv_path w =
      (r, after_run csv_path w evs (encountered web fuel START_URL ∅))
    ∧ (r = OutOfFuel ∨
       r = Val (length (new_trades (known_ids w)
                          (encountered web fuel START_URL ∅))))
    ∧ (3 ≤ fuel → r ≠ OutOfFuel)
    ∧ length (requests evs) ≤ 3.
Proof.
  destruct (check_loop_run web csv_path fuel 0 START_URL ∅ w)
    as (r & evs & Hrun & Hr & Hfuel & Hreq).
  exists r, evs. split; [exact Hrun|]. split; [exact Hr|].
  rewrite size_empty in Hfuel, Hreq. split; [|simpl in Hreq; lia].
  intros H. apply Hfuel; lia.
Qed.

(** C5: one call of [check_for_new_trades] makes at most three requests,
    whatever the site and however much fuel the loop is given; with fuel
    for three turns it returns a count. *)
Theorem incremental_fetches_at_most_three web fuel csv_path w :
  (∃ evs,
     trace (check_for_new_trades web fuel csv_path w).2 = trace w ++ evs
     ∧ length (requests evs) ≤ 3)
  ∧ (3 ≤ fuel → ∃ n, (check_for_new_trades web fuel csv_path w).1 = Val n).
Proof.
  destruct (check_for_new_trades_run web fuel csv_path w)
    as (r & evs & Hrun & Hr & Hfuel & Hreq).
  rewrite Hrun. split.
  - by exists evs.
  - intros H. destruct Hr as [->| ->]; [by destruct (Hfuel H)|eauto].
Qed.

Lemma incremental_fetches_at_most_three_witness :
  ∃ n, (check_for_new_trades Site.endless 3 CSV_FILE empty_world).1 = Val n.
Proof.
  apply (proj2 (incremental_fetches_at_most_three
                  Site.endless 3 CSV_FILE empty_world)).
  lia.
Defined.

(** ** Deduplication *)

Lemma new_trades_known known trades :
  keys_of trades ⊆ known → new_trades known trades = [].
Proof.
  induction trades as [|t trades IH]; [done|].
  rewrite keys_of_cons. intros H. simpl.
  rewrite bool_decide_eq_false_2 by set_solver. apply IH. set_solver.
Qed.

Lemma new_trades_first known l1 t1 rest :
  new_trades known (l1 ++ t1 :: rest) =
  new_trades known l1
  ++ (if decide (unique_id t1 ∈ known ∪ keys_of l1) then [] else [t1])
  ++ new_trades (known ∪ keys_of (l1 ++ [t1])) rest.
Proof.
  rewrite new_trades_app. f_equal. simpl.
  rewrite keys_of_app, keys_of_cons.
  change (keys_of []) with (∅ : gset string).
  replace (known ∪ (keys_of l1 ∪ ({[unique_id t1]} ∪ ∅)))
    with (known ∪ keys_of l1 ∪ {[unique_id t1]}) by set_solver.
  case_bool_decide as Hnew.
  - by rewrite decide_False.
  - rewrite decide_True by done.
    simpl. f_equal. set_solver.
Qed.

Lemma new_trades_drop_later known l1 t1 l2 t2 l3 :
  unique_id t1 = unique_id t2 →
  new_trades known (l1 ++ t1 :: l2 ++ t2 :: l3) =
  new_trades known (l1 ++ t1 :: l2 ++ l3).
Proof.
  intros Hkey.
  replace (l1 ++ t1 :: l2 ++ t2 :: l3) with ((l1 ++ t1 :: l2) ++ t2 :: l3)
    by (by rewrite <- app_assoc).
  replace (l1 ++ t1 :: l2 ++ l3) with ((l1 ++ t1 :: l2) ++ l3)
    by (by rewrite <- app_assoc).
  rewrite !(new_trades_app _ (l1 ++ t1 :: l2)). f_equal. simpl.
  rewrite bool_decide_eq_false_2; [done|].
  rewrite keys_of_app, keys_of_cons, <- Hkey. set_solver.
Qed.

Lemma same_fields_same_key t1 t2 :
  Politician t1 = Politician t2 → TradedDate t1 = TradedDate t2 →
  Issuer t1 = Issuer t2 → Type_ t1 = Type_ t2 →
  unique_id t1 = unique_id t2.
Proof. unfold unique_id. by intros -> -> -> ->. Qed.

(** The file after a traversal that read at least one record. *)
Lemma check_for_new_trades_files web fuel csv_path w :
  encountered web fuel START_URL ∅ ≠ [] →
  files (check_for_new_trades web fuel csv_path w).2 =
    append_rows csv_path
      (csv_row <$> new_trades (known_ids w) (encountered web fuel START_URL ∅))
      (touch csv_path (files w)).
Proof.
  intros Hne.
  destruct (check_for_new_trades_run web fuel csv_path w)
    as (r & evs & Hrun & _).
  rewrite Hrun. unfold after_run. cbn [files snd].
  by destruct (encountered web fuel START_URL ∅).
Qed.

(** C2: when two records read by one traversal agree on Politician,
    TradedDate, Issuer and Type, whatever their other fields, the later
    one adds no row: the rows written are those of the records before
    the first of the two, then the first one if its key was new at that
    point, then those of the remaining records without the later one. *)
Theorem later_duplicate_not_appended web fuel csv_path w l1 t1 l2 t2 l3 :
  encountered web fuel START_URL ∅ = l1 ++ t1 :: l2 ++ t2 :: l3 →
  Politician t1 = Politician t2 → TradedDate t1 = TradedDate t2 →
  Issuer t1 = Issuer t2 → Type_ t1 = Type_ t2 →
  files (check_for_new_trades web fuel csv_path w).2 =
    append_rows csv_path
      (csv_row <$>
         (new_trades (known_ids w) l1
          ++ (if decide (unique_id t1 ∈ known_ids w ∪ keys_of l1)
              then [] else [t1])
          ++ new_trades (known_ids w ∪ keys_of (l1 ++ [t1])) (l2 ++ l3)))
      (touch csv_path (files w)).
Proof.
  intros Henc Hp Hd Hi Ht.
  rewrite check_for_new_trades_files by (rewrite Henc; by destruct l1).
  rewrite Henc.
  rewrite new_trades_drop_later by by apply same_fields_same_key.
  by rewrite new_trades_first.
Qed.

Lemma later_duplicate_not_appended_witness :
  files (check_for_new_trades Site.two_pages 3 CSV_FILE empty_world).2
    !! CSV_FILE = Some [csv_row Site.jane; csv_row Site.john].
Proof.
  rewrite (later_duplicate_not_appended Site.two_pages 3 CSV_FILE empty_world
             [] Site.jane [Site.john] Site.jane_repriced [Site.john_shifted]
             eq_refl eq_refl eq_refl eq_refl eq_refl).
  reflexivity.
Defined.

Lemma row_unique_id_csv_row t w :
  row_unique_id (dict_row fieldnames (csv_row t)) w = (Val (unique_id t), w).
Proof. reflexivity. Qed.

Lemma string_app_assoc (s1 s2 s3 : string) :
  (s1 +:+ s2) +:+ s3 = s1 +:+ (s2 +:+ s3).
Proof.
  induction s1 as [|c s1 IH]; [done|].
  change (String c ((s1 +:+ s2) +:+ s3) = String c (s1 +:+ (s2 +:+ s3))).
  by rewrite IH.
Qed.

Lemma unique_id_joined_fields t : unique_id t = joined_fields t.
Proof.
  unfold unique_id, joined_fields. simpl. by rewrite !string_app_assoc.
Qed.

Lemma keys_of_joined_fields trades :
  keys_of trades = list_to_set (joined_fields <$> trades).
Proof.
  unfold keys_of. f_equal. apply list_fmap_ext. intros _ t _.
  apply unique_id_joined_fields.
Qed.

(** C10: the key a record is indexed under is its four key fields
    concatenated with no separator: after a traversal the index holds,
    besides what it held, exactly these concatenations of the records
    read. The concatenation is not injective: records with different
    fields can have the same one, and then the later record, read in the
    same traversal, adds no row. Of two records whose key is new, both
    are written when their concatenations differ and only the first when
    they are equal. The loader builds the same string from a stored
    row. *)
Theorem unique_id_collision :
  (∀ web fuel csv_path w,
     known_ids (check_for_new_trades web fuel csv_path w).2 =
       known_ids w
       ∪ list_to_set (joined_fields <$> encountered web fuel START_URL ∅))
  ∧ (∃ t1 t2,
       (Politician t1, TradedDate t1, Issuer t1, Type_ t1) ≠
       (Politician t2, TradedDate t2, Issuer t2, Type_ t2)
       ∧ joined_fields t1 = joined_fields t2)
  ∧ (∀ web fuel csv_path w l1 t1 l2 t2 l3,
       encountered web fuel START_URL ∅ = l1 ++ t1 :: l2 ++ t2 :: l3 →
       joined_fields t1 = joined_fields t2 →
       files (check_for_new_trades web fuel csv_path w).2 =
         append_rows csv_path
           (csv_row <$> new_trades (known_ids w) (l1 ++ t1 :: l2 ++ l3))
           (touch csv_path (files w)))
  ∧ (∀ csv_path t1 t2 n w,
       joined_fields t1 ∉ known_ids w →
       joined_fields t1 = joined_fields t2 →
       write_new_trades csv_path [t1; t2] n w =
         (Val (n + 1),
          {| files := append_rows csv_path [csv_row t1] (files w);
             known_ids := known_ids w ∪ {[joined_fields t1]};
             trace := trace w |}))
  ∧ (∀ csv_path t1 t2 n w,
       joined_fields t1 ∉ known_ids w → joined_fields t2 ∉ known_ids w →
       joined_fields t1 ≠ joined_fields t2 →
       write_new_trades csv_path [t1; t2] n w =
         (Val (n + 2),
          {| files := append_rows csv_path [csv_row t1; csv_row t2] (files w);
             known_ids := known_ids w ∪ {[joined_fields t1; joined_fields t2]};
             trace := trace w |}))
  ∧ (∀ t w,
       row_unique_id (dict_row fieldnames (csv_row t)) w =
         (Val (joined_fields t), w)).
Proof.
  split; [|split; [|split; [|split; [|split]]]].
  - intros web fuel csv_path w.
    destruct (check_for_new_trades_run web fuel csv_path w)
      as (r & evs & -> & _).
    cbn [snd known_ids after_run]. by rewrite keys_of_joined_fields.
  - exists Site.john, Site.john_shifted. split; [discriminate|reflexivity].
  - intros web fuel csv_path w l1 t1 l2 t2 l3 Henc Hkey.
    rewrite <- (unique_id_joined_fields t1), <- (unique_id_joined_fields t2)
      in Hkey.
    rewrite check_for_new_trades_files by (rewrite Henc; by destruct l1).
    by rewrite Henc, new_trades_drop_later.
  - intros csv_path t1 t2 n w Hnew Hkey.
    rewrite <- (unique_id_joined_fields t1), <- (unique_id_joined_fields t2)
      in Hkey.
    rewrite <- (unique_id_joined_fields t1) in Hnew |- *.
    rewrite write_new_trades_run. cbn [new_trades].
    rewrite bool_decide_eq_true_2 by done.
    rewrite bool_decide_eq_false_2 by (rewrite <- Hkey; set_solver).
    do 2 f_equal. rewrite !keys_of_cons, <- Hkey. set_solver.
  - intros csv_path t1 t2 n w Hnew1 Hnew2 Hdiff.
    rewrite <- (unique_id_joined_fields t1), <- (unique_id_joined_fields t2)
      in Hdiff |- *.
    rewrite <- (unique_id_joined_fields t1) in Hnew1.
    rewrite <- (unique_id_joined_fields t2) in Hnew2.
    rewrite write_new_trades_run. cbn [new_trades].
    rewrite bool_decide_eq_true_2 by done.
    rewrite bool_decide_eq_true_2 by set_solver.
    f_equal. f_equal. rewrite !keys_of_cons. set_solver.
  - intros t w. rewrite <- unique_id_joined_fields.
    apply row_unique_id_csv_row.
Qed.

Lemma unique_id_collision_witness :
  files (check_for_new_trades Site.two_pages 3 CSV_FILE empty_world).2 =
    append_rows CSV_FILE
      (csv_row <$> new_trades ∅ [Site.jane; Site.john; Site.jane_repriced])
      (touch CSV_FILE ∅).
Proof.
  apply (proj1 (proj2 (proj2 unique_id_collision)) Site.two_pages 3 CSV_FILE
           empty_world [Site.jane] Site.john [Site.jane_repriced]
           Site.john_shifted []); reflexivity.
Defined.

(** ** Failed fetches *)

Lemma fetch_fails_fetched web url :
  fetch_fails web url → fetched web url = None.
Proof.
  unfold fetch_fails, fetched, value_of.
  destruct (web url) as [e|status_code soup] eqn:Hweb.
  - by rewrite (fetch_page_raises _ _ _ _ Hweb).
  - intros H. rewrite (fetch_page_status _ _ _ _ _ Hweb).
    replace ((400 <=? status_code)%Z && (status_code <? 600)%Z) with true;
      [done|]. symmetry. apply andb_true_iff. split; lia.
Qed.

Lemma loop_condition_true current_url (visited : gset string) :
  current_url ≠ "" → current_url ∉ visited →
  Str.truthy current_url && bool_decide (current_url ∉ visited) = true.
Proof.
  intros H1 H2. rewrite bool_decide_eq_true_2 by done. by destruct current_url.
Qed.

Lemma rows_of_after_run path w evs trades :
  rows_of path (after_run path w evs trades) =
  rows_of path w ++ (csv_row <$> new_trades (known_ids w) trades).
Proof.
  unfold rows_of, after_run. cbn [files].
  assert (Htouch : default [] (touch path (files w) !! path) =
                   default [] (files w !! path)).
  { unfold touch. destruct (files w !! path) eqn:H; [by rewrite H|].
    by rewrite lookup_insert_eq. }
  destruct (new_trades (known_ids w) trades) as [|t new] eqn:Hnew.
  - simpl. rewrite app_nil_r. destruct trades; [done|exact Htouch].
  - unfold append_rows. rewrite fmap_cons, lookup_insert_eq. simpl.
    destruct trades; [done|]. cbn [opened]. by rewrite Htouch.
Qed.

Lemma write_all_run path trades w :
  write_all path trades w =
    (Val tt, {| files := append_rows path (csv_row <$> trades) (files w);
                known_ids := known_ids w; trace := trace w |}).
Proof.
  revert w. induction trades as [|t trades IH]; intros w.
  - by destruct w.
  - simpl. unfold mbind at 1, M_bind at 1. rewrite write_row_run, IH.
    cbn [files known_ids trace].
    change (csv_row t :: (csv_row <$> trades))
      with ([csv_row t] ++ (csv_row <$> trades)).
    by rewrite append_rows_app.
Qed.

Lemma scrape_loop_stop web output_csv fuel current_url visited w :
  truthy_url current_url = false ∨
  (∃ u, current_url = Some u ∧ u ∈ visited) →
  scrape_loop web output_csv fuel current_url visited w = (Val tt, w).
Proof.
  intros [H|(u & -> & H)].
  - destruct current_url as [u|]; [|by destruct fuel].
    simpl in H. destruct fuel; simpl; by rewrite H.
  - assert (Hb : bool_decide (u ∉ visited) = false)
      by (apply bool_decide_eq_false; tauto).
    destruct fuel; simpl; by rewrite Hb, andb_false_r.
Qed.

Lemma scrape_loop_turn web output_csv fuel u visited w :
  Str.truthy u && bool_decide (u ∉ visited) = true →
  scrape_loop web output_csv (S fuel) (Some u) visited w =
    let evs1 := EvPrint ("[*] Scraping: " +:+ u)
                :: events_of (fetch_page web u) in
    match fetched web u with
    | None =>
        (Val tt,
         logged w (evs1 ++
                   [EvPrint ("[!] Skipping page due to fetch error: " +:+ u)]))
    | Some soup =>
        scrape_loop web output_csv fuel (find_next_page_url soup)
          (visited ∪ {[u]})
          {| files := append_rows output_csv (csv_row <$> extracted soup)
                        (files w);
             known_ids := known_ids w;
             trace := trace w ++ evs1
                      ++ events_of (parse_trades_from_soup soup)
                      ++ [EvSleep 1] |}
    end.
Proof.
  intros Hcond. simpl. rewrite Hcond.
  unfold print, emit. unfold mbind at 1, M_bind at 1.
  unfold mbind at 1, M_bind at 1. rewrite fetch_page_run, logged_logged.
  destruct (fetched web u) as [soup|].
  - unfold mbind at 1, M_bind at 1. rewrite parse_run, logged_logged.
    unfold mbind at 1, M_bind at 1. rewrite write_all_run.
    unfold sleep. unfold mbind at 1, M_bind at 1. unfold emit at 1.
    unfold logged. cbn [files known_ids trace].
    do 2 f_equal. by rewrite <- !app_assoc.
  - by rewrite logged_logged.
Qed.

Lemma main_cycles_turn webs fuel cycle cycles w :
  main_cycles webs fuel cycle (S cycles) w =
    match check_for_new_trades (webs cycle) fuel CSV_FILE
            (logged w [EvPrint "[+] Checking for new trades…"]) with
    | (Val n, w') =>
        main_cycles webs fuel (S cycle) cycles
          (logged w'
             [EvPrint (if 0 <? n
                       then "[+] Found " +:+ pretty n +:+ " new trades!"
                       else "[+] No new trades at this time.");
              EvSleep 3600])
    | (Exc e, w') => (Exc e, w')
    | (OutOfFuel, w') => (OutOfFuel, w')
    end.
Proof.
  simpl. unfold print, sleep, emit. unfold mbind at 1, M_bind at 1.
  unfold mbind at 1, M_bind at 1.
  destruct (check_for_new_trades _ _ _ _) as [[n|e|] w']; try reflexivity.
  unfold mbind at 1, M_bind at 1.
  destruct (0 <? n); unfold mbind at 1, M_bind at 1;
    by rewrite logged_logged.
Qed.

Lemma failure_of_fetch web url e w :
  failure_of web url = Some e →
  fetch_page web url w = (Val None, logged w [EvGet url; EvStderr url e]).
Proof.
  unfold failure_of. destruct (web url) as [e'|status_code soup] eqn:Hweb.
  - intros [= ->]. by apply fetch_page_raises.
  - rewrite (fetch_page_status _ _ _ _ _ Hweb).
    destruct (_ && _); [|done]. by intros [= <-].
Qed.

Lemma failure_of_fetched web url e :
  failure_of web url = Some e →
  fetched web url = None
  ∧ events_of (fetch_page web url) = [EvGet url; EvStderr url e].
Proof.
  intros H. unfold fetched, value_of, events_of.
  by rewrite (failure_of_fetch _ _ _ _ H).
Qed.

Lemma fetched_events web url soup :
  fetched web url = Some soup → events_of (fetch_page web url) = [EvGet url].
Proof.
  unfold fetched, value_of, events_of.
  destruct (web url) as [e|status_code soup'] eqn:Hweb.
  - by rewrite (fetch_page_raises _ _ _ _ Hweb).
  - rewrite (fetch_page_status _ _ _ _ _ Hweb). by destruct (_ && _).
Qed.

Lemma extracted_events soup :
  extracted soup ≠ [] → events_of (parse_trades_from_soup soup) = [].
Proof.
  unfold extracted, value_of, events_of, parse_trades_from_soup.
  destruct (select_one_table soup) as [table|]; [|done].
  by rewrite parse_rows_spec.
Qed.

Lemma find_next_page_url_truthy soup next :
  find_next_page_url soup = Some next → next ≠ "".
Proof.
  unfold find_next_page_url.
  destruct (select_one_next soup) as [a|]; [|done].
  destruct (href a) as [relative|]; [|done].
  destruct (Str.truthy relative); [|done]. by intros [= <-].
Qed.

(** A traversal of the monitor that goes through some pages and then
    fails to fetch the next one. *)
Lemma check_loop_to_failure web csv_path e v : ∀ pages u visited fuel n w,
  leads web u pages v → failure_of web v = Some e → u ≠ "" →
  NoDup (pages.*1 ++ [v]) →
  (∀ x, x ∈ pages.*1 ++ [v] → x ∉ visited) →
  size visited + length pages < 3 → length pages < fuel →
  check_loop web csv_path fuel n u visited w =
    (Val (n + length (new_trades (known_ids w) (records_of pages))),
     after_run csv_path w (visit_log pages v e) (records_of pages)).
Proof.
  induction pages as [|[u' soup] pages IH];
    intros u visited fuel n w Hleads Hfail Hu Hdup Hfresh Hcap Hfuel;
    (destruct fuel as [|fuel]; [simpl in Hfuel; lia|]).
  - simpl in Hleads. subst v.
    rewrite check_loop_turn
      by (apply loop_condition_true; [done|apply Hfresh; set_solver]).
    destruct (failure_of_fetched _ _ _ Hfail) as [-> ->]. cbv zeta.
    rewrite after_run_nil. simpl. by rewrite Nat.add_0_r.
  - destruct Hleads as (<- & Hfetch & Hrec & next & Hnext & Hleads).
    assert (Hfresh_u : u ∉ visited) by (apply Hfresh; set_solver).
    rewrite check_loop_turn by by apply loop_condition_true.
    rewrite Hfetch, (fetched_events _ _ _ Hfetch), (extracted_events _ Hrec).
    cbv zeta. rewrite Hnext.
    destruct (extracted soup) as [|t trades] eqn:Hext; [done|].
    pose proof (find_next_page_url_truthy _ _ Hnext) as Hnext_ne.
    assert (Htruthy : Str.truthy next = true) by by destruct next.
    rewrite Htruthy, (size_visit _ _ Hfresh_u).
    simpl in Hcap, Hfuel, Hdup.
    apply NoDup_cons in Hdup as [Hnotin Hdup].
    replace (S (size visited) <? 3) with true
      by (symmetry; apply Nat.ltb_lt; lia).
    cbn [andb].
    rewrite (IH next (visited ∪ {[u]}) fuel); try done; try lia.
    + rewrite after_run_app. unfold records_of. rewrite fmap_cons.
      cbn [concat snd]. rewrite Hext. f_equal.
      rewrite (new_trades_app _ (t :: trades)), length_app.
      cbn [known_ids after_run]. f_equal. lia.
    + intros x Hx [Hv| ->%elem_of_singleton]%elem_of_union; [|done].
      apply (Hfresh x); [|done]. simpl. by apply list_elem_of_further.
    + rewrite (size_visit _ _ Hfresh_u). lia.
Qed.

(** C9: a failed fetch ends the traversal on the spot and raises
    nothing. At any turn of the monitor's loop it makes the loop return
    the count reached so far, with the file and the index as they are
    and no further request. A whole call that goes through k-1 pages
    and fails on page k returns the number of rows it appended, which
    are the new records of those k-1 pages; they stay at the end of the
    file, after the rows that were there, and the last request is the
    failed one. The scheduler then prints, sleeps and goes on with its
    next cycle. In the crawler the loop ends the same way, with the file
    as it is. *)
Theorem fetch_failure_stops_traversal web e :
  (∀ csv_path fuel new_count current_url visited w,
     current_url ≠ "" → current_url ∉ visited →
     failure_of web current_url = Some e →
     check_loop web csv_path (S fuel) new_count current_url visited w =
       (Val new_count,
        logged w [EvPrint ("[*] Checking page: " +:+ current_url);
                  EvGet current_url; EvStderr current_url e]))
  ∧ (∀ csv_path fuel w pages v,
       leads web START_URL pages v → failure_of web v = Some e →
       NoDup (pages.*1 ++ [v]) → length pages < 3 → length pages < fuel →
       check_for_new_trades web fuel csv_path w =
         (Val (length (new_trades (known_ids w) (records_of pages))),
          after_run csv_path w (visit_log pages v e) (records_of pages))
       ∧ rows_of csv_path
           (after_run csv_path w (visit_log pages v e) (records_of pages)) =
         rows_of csv_path w
         ++ (csv_row <$> new_trades (known_ids w) (records_of pages)))
  ∧ (∀ webs fuel cycle cycles w pages v,
       webs cycle = web →
       leads web START_URL pages v → failure_of web v = Some e →
       NoDup (pages.*1 ++ [v]) → length pages < 3 → length pages < fuel →
       main_cycles webs fuel cycle (S cycles) w =
         main_cycles webs fuel (S cycle) cycles
           (logged
              (after_run CSV_FILE
                 (logged w [EvPrint "[+] Checking for new trades…"])
                 (visit_log pages v e) (records_of pages))
              [EvPrint
                 (let n := length (new_trades (known_ids w)
                                     (records_of pages)) in
                  if 0 <? n
                  then "[+] Found " +:+ pretty n +:+ " new trades!"
                  else "[+] No new trades at this time.");
               EvSleep 3600]))
  ∧ (∀ output_csv fuel u visited w,
       u ≠ "" → u ∉ visited → failure_of web u = Some e →
       scrape_loop web output_csv (S fuel) (Some u) visited w =
         (Val tt,
          logged w [EvPrint ("[*] Scraping: " +:+ u); EvGet u; EvStderr u e;
                    EvPrint ("[!] Skipping page due to fetch error: "
                             +:+ u)])).
Proof.
  assert (Hcall : ∀ csv_path fuel w pages v,
    leads web START_URL pages v → failure_of web v = Some e →
    NoDup (pages.*1 ++ [v]) → length pages < 3 → length pages < fuel →
    check_for_new_trades web fuel csv_path w =
      (Val (length (new_trades (known_ids w) (records_of pages))),
       after_run csv_path w (visit_log pages v e) (records_of pages))).
  { intros csv_path fuel w pages v Hleads Hfail Hdup Hcap Hfuel.
    unfold check_for_new_trades.
    by rewrite (check_loop_to_failure web csv_path e v pages). }
  split; [|split; [|split]].
  - intros csv_path fuel new_count current_url visited w Hne Hfresh Hfail.
    rewrite check_loop_turn by by apply loop_condition_true.
    by destruct (failure_of_fetched _ _ _ Hfail) as [-> ->].
  - intros csv_path fuel w pages v Hleads Hfail Hdup Hcap Hfuel.
    split; [by apply Hcall|apply rows_of_after_run].
  - intros webs fuel cycle cycles w pages v Hweb Hleads Hfail Hdup Hcap Hfuel.
    rewrite main_cycles_turn, Hweb.
    by rewrite (Hcall CSV_FILE fuel _ pages v).
  - intros output_csv fuel u visited w Hne Hfresh Hfail.
    rewrite scrape_loop_turn by by apply loop_condition_true.
    destruct (failure_of_fetched _ _ _ Hfail) as [-> ->]. cbv zeta.
    reflexivity.
Qed.

Lemma fetch_failure_stops_traversal_witness :
  check_for_new_trades Site.broken_link 3 CSV_FILE empty_world =
    (Val 1,
     {| files := {[ CSV_FILE := [csv_row Site.jane] ]};
        known_ids := {[ unique_id Site.jane ]};
        trace := [EvPrint ("[*] Checking page: " +:+ START_URL);
                  EvGet START_URL;
                  EvPrint ("[*] Checking page: " +:+ Site.page2_url);
                  EvGet Site.page2_url;
                  EvStderr Site.page2_url ConnectionError] |}).
Proof.
  apply (proj1 (proj1 (proj2 (fetch_failure_stops_traversal
                                Site.broken_link ConnectionError))
                  CSV_FILE 3 empty_world
                  [(START_URL,
                    Sample.page [Site.row_of Site.jane]
                      [Sample.next_link "/trades?page=2"])]
                  Site.page2_url
                  (conj eq_refl
                     (conj eq_refl
                        (conj (λ H, eq_ind [] (λ l, match l with
                                                    | [] => True
                                                    | _ :: _ => False
                                                    end) I _ (eq_sym H))
                           (ex_intro _ Site.page2_url
                              (conj eq_refl eq_refl)))))
                  eq_refl
                  ltac:(apply NoDup_cons; split;
                          [by intros H%list_elem_of_singleton
                          |apply NoDup_singleton])
                  ltac:(simpl; lia) ltac:(simpl; lia))).
Defined.

(** ** Running the monitor again *)

Lemma keys_new_trades known trades :
  known ∪ keys_of (new_trades known trades) = known ∪ keys_of trades.
Proof.
  revert known. induction trades as [|t trades IH]; intros known; [done|].
  simpl. case_bool_decide as Hnew.
  - rewrite !keys_of_cons.
    replace (known ∪ ({[unique_id t]} ∪
               keys_of (new_trades (known ∪ {[unique_id t]}) trades)))
      with ((known ∪ {[unique_id t]}) ∪
               keys_of (new_trades (known ∪ {[unique_id t]}) trades))
      by set_solver.
    rewrite IH. set_solver.
  - rewrite IH, keys_of_cons. set_solver.
Qed.



(** Building a key leaves the world alone and raises no
    [FileNotFoundError]. *)
Lemma row_unique_id_world d w :
  ∃ r, row_unique_id d w = (r, w)
       ∧ ∀ path, r ≠ Exc (FileNotFoundError path).
Proof.
  unfold row_unique_id, dict_getitem, py_add. run.
  destruct (d !! "Politician") as [[p|]|];
    destruct (d !! "TradedDate") as [[t|]|];
    destruct (d !! "Issuer") as [[i|]|];
    destruct (d !! "Type") as [[y|]|];
    simpl; eexists; (split; [reflexivity|done]).
Qed.

Lemma load_rows_world header rows : ∀ known w,
  ∃ r, load_rows header rows known w = (r, w)
       ∧ ∀ path, r ≠ Exc (FileNotFoundError path).
Proof.
  induction rows as [|row rows IH]; intros known w.
  - eexists. split; [reflexivity|done].
  - destruct row as [|c row]; [apply IH|].
    cbn [load_rows]. unfold mbind at 1, M_bind at 1.
    destruct (row_unique_id_world (dict_row header (c :: row)) w)
      as (r & -> & Hr).
    destruct r as [unique_id|e|].
    + apply IH.
    + eexists. split; [reflexivity|]. intros path [= ->]. by apply (Hr path).
    + eexists. split; [reflexivity|done].
Qed.

Lemma load_rows_app header rows1 rows2 : ∀ known known' w,
  load_rows header rows1 known w = (Val known', w) →
  load_rows header (rows1 ++ rows2) known w = load_rows header rows2 known' w.
Proof.
  induction rows1 as [|row rows1 IH]; intros known known' w.
  - by intros [= ->].
  - destruct row as [|c row]; [apply IH|].
    intros Hload. rewrite <- app_comm_cons.
    cbn [load_rows] in Hload |- *.
    unfold mbind, M_bind in Hload |- *.
    destruct (row_unique_id_world (dict_row header (c :: row)) w)
      as (r & Hid & _).
    rewrite Hid in Hload |- *.
    destruct r as [unique_id|e|]; [|done..]. by apply IH.
Qed.

Lemma load_rows_csv_rows trades : ∀ known w,
  load_rows fieldnames (csv_row <$> trades) known w =
    (Val (known ∪ keys_of trades), w).
Proof.
  induction trades as [|t trades IH]; intros known w.
  - simpl. change (keys_of []) with (∅ : gset string).
    by rewrite (right_id_L ∅ (∪)).
  - rewrite fmap_cons. change (csv_row t) with
      (Politician t :: [Issuer t; PublishedDate t; TradedDate t;
                        DaysAfter t; Owner t; Type_ t; SizeRange t; Price t]).
    cbn [load_rows]. unfold mbind at 1, M_bind at 1.
    change (Politician t :: _) with (csv_row t).
    rewrite row_unique_id_csv_row, IH, keys_of_cons. do 2 f_equal. set_solver.
Qed.


Lemma load_known_ids_stored csv_path rows known w :
  files w !! csv_path = Some (fieldnames :: rows) →
  load_rows fieldnames rows ∅ w = (Val known, w) →
  load_known_ids csv_path w = (Val known, w).
Proof.
  intros Hfile Hload.
  unfold load_known_ids, try_except_not_found, read_rows, get_files.
  unfold mbind, M_bind. rewrite Hfile. unfold mret, M_ret. by rewrite Hload.
Qed.






(** ** The crawler's traversal *)

Section ScrapeLoop.

Variable web : Web.
Variable output_csv : string.

Lemma requests_turn u soup tr :
  requests (tr ++ (EvPrint ("[*] Scraping: " +:+ u)
                   :: events_of (fetch_page web u))
               ++ events_of (parse_trades_from_soup soup) ++ [EvSleep 1]) =
  requests tr ++ [u].
Proof.
  rewrite !requests_app, requests_parse. f_equal.
  change (requests (EvPrint ?m :: ?l)) with (requests l).
  by rewrite requests_fetch_page.
Qed.

(** A chain of distinct pages is walked from end to end. *)
Lemma scrape_loop_chain stop us : ∀ u visited fuel w,
  u ≠ "" → Forall (λ x, x ≠ "") us →
  NoDup (u :: us) →
  (∀ x, x ∈ u :: us → x ∉ visited) →
  chain web u us stop →
  (stop = None ∨ ∃ v, stop = Some v ∧ (v ∈ visited ∨ v ∈ u :: us)) →
  length (u :: us) ≤ fuel →
  ∃ w',
    scrape_loop web output_csv fuel (Some u) visited w = (Val tt, w')
    ∧ requests (trace w') = requests (trace w) ++ u :: us.
Proof.
  induction us as [|u' us IH];
    intros u visited fuel w Hu Hus Hdup Hfresh Hchain Hstop Hfuel.
  - destruct fuel as [|fuel]; [simpl in Hfuel; lia|].
    destruct Hchain as (soup & Hfetch & Hnext).
    rewrite scrape_loop_turn
      by (apply loop_condition_true; [done|apply Hfresh; set_solver]).
    rewrite Hfetch, Hnext. cbv zeta.
    rewrite scrape_loop_stop.
    + eexists. split; [reflexivity|]. cbn [trace]. apply requests_turn.
    + destruct Hstop as [->|(v & -> & Hv)]; [by left|right].
      exists v. split; [done|]. set_solver.
  - destruct fuel as [|fuel]; [simpl in Hfuel; lia|].
    destruct Hchain as (soup & Hfetch & Hnext & Hchain).
    rewrite scrape_loop_turn
      by (apply loop_condition_true; [done|apply Hfresh; set_solver]).
    rewrite Hfetch, Hnext. cbv zeta.
    apply Forall_cons in Hus as [Hu' Hus].
    apply NoDup_cons in Hdup as [Hnotin Hdup].
    edestruct (IH u' (visited ∪ {[u]}) fuel) as (w' & Hrun & Hreq);
      [exact Hu'|exact Hus|exact Hdup| |exact Hchain| |simpl in *; lia|].
    + intros x Hx [Hv| ->%elem_of_singleton]%elem_of_union.
      * apply (Hfresh x); [set_solver|done].
      * done.
    + destruct Hstop as [->|(v & -> & [Hv|Hv])]; [by left|right..];
        exists v; (split; [done|]).
      * left. set_solver.
      * apply elem_of_cons in Hv as [->|Hv]; [left; set_solver|by right].
    + exists w'. split; [exact Hrun|]. rewrite Hreq. cbn [trace].
      rewrite requests_turn, <- app_assoc. reflexivity.
Qed.

(** When every next-page link leads into a finite set of URLs, the loop
    ends before the fuel does. *)
Lemma scrape_loop_finite (pages : gset string) :
  (∀ u soup v,
     fetched web u = Some soup → find_next_page_url soup = Some v →
     v ∈ pages) →
  ∀ fuel current_url visited w,
    (∀ u, current_url = Some u → u ∈ pages) →
    size (pages ∖ visited) ≤ fuel →
    (scrape_loop web output_csv fuel current_url visited w).1 = Val tt.
Proof.
  intros Hlinks. induction fuel as [|fuel IH];
    intros current_url visited w Hcur Hsize.
  - destruct current_url as [u|]; [|done].
    destruct (Str.truthy u && bool_decide (u ∉ visited)) eqn:Hcond.
    + destruct (loop_condition _ _ Hcond) as [_ Hfresh].
      assert (Hin : u ∈ pages ∖ visited) by (specialize (Hcur u eq_refl); set_solver).
      assert (size (pages ∖ visited) ≠ 0)
        by (intros ?%size_empty_inv; set_solver).
      lia.
    + simpl. by rewrite Hcond.
  - destruct current_url as [u|]; [|done].
    destruct (Str.truthy u && bool_decide (u ∉ visited)) eqn:Hcond.
    2:{ simpl. by rewrite Hcond. }
    destruct (loop_condition _ _ Hcond) as [_ Hfresh].
    rewrite scrape_loop_turn by done. cbv zeta.
    destruct (fetched web u) as [soup|] eqn:Hfetch; [|done].
    apply IH.
    + intros v Hv. by apply (Hlinks u soup).
    + assert (Hin : {[u]} ⊆ pages ∖ visited)
        by (specialize (Hcur u eq_refl); set_solver).
      replace (pages ∖ (visited ∪ {[u]})) with ((pages ∖ visited) ∖ {[u]})
        by set_solver.
      rewrite size_difference by done. rewrite size_singleton.
      apply subseteq_size in Hin. rewrite size_singleton in Hin. lia.
Qed.

End ScrapeLoop.

Lemma scrape_capitol_trades_run web fuel start_url output_csv w :
  scrape_capitol_trades web fuel start_url output_csv w =
    match scrape_loop web output_csv fuel (Some start_url) ∅
            (crawl_start output_csv w) with
    | (Val _, w') =>
        (Val tt,
         logged w' [EvPrint ("[+] Finished scraping. CSV saved to "
                             +:+ output_csv)])
    | (Exc e, w') => (Exc e, w')
    | (OutOfFuel, w') => (OutOfFuel, w')
    end.
Proof.
  unfold scrape_capitol_trades, open_write, write_row, get_files, set_files.
  unfold mbind, M_bind. cbn [files known_ids trace].
  rewrite lookup_insert_eq, insert_insert_eq. cbn [default app].
  fold (crawl_start output_csv w).
  by destruct (scrape_loop _ _ _ _ _ _) as [[[]|e|] w'].
Qed.

(** C4, as the code has it: the crawler has no page limit, so it ends
    exactly when the next-page links stop leading to new URLs. On a
    chain of N distinct pages whose last page has no next-page link, or
    one that leads back to a page of the chain, it requests exactly
    those N pages, in order, and returns. A page whose next-page link
    leads to a URL already visited is the last one requested. Whenever
    all next-page links lead into a finite set of URLs, it returns. *)
Theorem full_crawl_terminates web output_csv :
  (∀ u us stop fuel w,
     u ≠ "" → Forall (λ x, x ≠ "") us → NoDup (u :: us) →
     chain web u us stop →
     (stop = None ∨ ∃ v, stop = Some v ∧ v ∈ u :: us) →
     length (u :: us) ≤ fuel →
     ∃ w',
       scrape_capitol_trades web fuel u output_csv w = (Val tt, w')
       ∧ requests (trace w') = requests (trace w) ++ u :: us)
  ∧ (∀ fuel u visited w soup v,
       u ≠ "" → u ∉ visited →
       fetched web u = Some soup → find_next_page_url soup = Some v →
       v ∈ visited ∪ {[u]} →
       ∃ w',
         scrape_loop web output_csv (S fuel) (Some u) visited w = (Val tt, w')
         ∧ requests (trace w') = requests (trace w) ++ [u])
  ∧ (∀ (pages : gset string) start_url fuel w,
       (∀ u soup v,
          fetched web u = Some soup → find_next_page_url soup = Some v →
          v ∈ pages) →
       size pages + 1 ≤ fuel →
       (scrape_capitol_trades web fuel start_url output_csv w).1 = Val tt).
Proof.
  split; [|split].
  - intros u us stop fuel w Hu Hus Hdup Hchain Hstop Hfuel.
    destruct (scrape_loop_chain web output_csv stop us u ∅ fuel
                (crawl_start output_csv w))
      as (w' & Hrun & Hreq); try done.
    { destruct Hstop as [->|(v & -> & Hv)]; [by left|right]. eauto. }
    rewrite scrape_capitol_trades_run, Hrun. eexists. split; [reflexivity|].
    unfold logged. cbn [trace]. rewrite requests_app, Hreq. simpl.
    by rewrite app_nil_r.
  - intros fuel u visited w soup v Hu Hfresh Hfetch Hnext Hv.
    apply (scrape_loop_chain web output_csv (Some v) [] u visited (S fuel) w);
      try done.
    + apply NoDup_singleton.
    + intros x ->%list_elem_of_singleton. done.
    + by exists soup.
    + right. exists v. split; [done|]. set_solver.
    + simpl. lia.
  - intros pages start_url fuel w Hlinks Hfuel.
    rewrite scrape_capitol_trades_run.
    destruct fuel as [|fuel]; [lia|].
    assert (Hloop : (scrape_loop web output_csv (S fuel) (Some start_url) ∅
                       (crawl_start output_csv w)).1 = Val tt).
    { destruct (Str.truthy start_url) eqn:Htruthy.
      2:{ rewrite scrape_loop_stop; [done|by left]. }
      rewrite scrape_loop_turn
        by (rewrite Htruthy, bool_decide_eq_true_2; [done|set_solver]).
      cbv zeta.
      destruct (fetched web start_url) as [soup|] eqn:Hfetch; [|done].
      apply (scrape_loop_finite web output_csv pages Hlinks).
      - intros v Hv. by apply (Hlinks start_url soup).
      - assert (size (pages ∖ (∅ ∪ {[start_url]})) ≤ size pages)
          by (apply subseteq_size; set_solver).
        lia. }
    destruct (scrape_loop _ _ _ _ _ _) as [[[]|e|] w']; done.
Qed.

Lemma full_crawl_terminates_witness :
  ∃ w',
    scrape_capitol_trades Site.loop_back 2 START_URL CSV_FILE empty_world =
      (Val tt, w')
    ∧ requests (trace w') =
      requests (trace empty_world) ++ [START_URL; Site.page2_url].
Proof.
  apply (proj1 (full_crawl_terminates Site.loop_back CSV_FILE)
           START_URL [Site.page2_url] (Some START_URL) 2 empty_world).
  - discriminate.
  - repeat constructor. discriminate.
  - apply NoDup_cons. split; [|apply NoDup_singleton].
    intros H%list_elem_of_singleton. discriminate H.
  - eexists. split; [reflexivity|]. split; [reflexivity|].
    eexists. split; reflexivity.
  - right. exists START_URL. split; [reflexivity|]. apply list_elem_of_here.
  - apply le_n.
Defined.

(** *** A site without a last page *)

Lemma string_length_app (s1 s2 : string) :
  String.length (s1 +:+ s2) = String.length s1 + String.length s2.
Proof. induction s1 as [|c s1 IH]; simpl; [done|]. by rewrite IH. Qed.

Lemma endless_fetched rel :
  fetched Site.endless (BASE_URL +:+ rel) =
    Some (Sample.page [Site.row_of Site.john]
            [Sample.next_link (rel +:+ "0")]).
Proof. reflexivity. Qed.

Lemma endless_next rel :
  find_next_page_url
    (Sample.page [Site.row_of Site.john] [Sample.next_link (rel +:+ "0")]) =
  Some (BASE_URL +:+ (rel +:+ "0")).
Proof.
  unfold find_next_page_url. cbn [select_one_next Sample.page doc_anchors].
  change (List.find _ _) with (Some (Sample.next_link (rel +:+ "0"))).
  cbn [href Sample.next_link]. by destruct rel.
Qed.

Lemma endless_loop output_csv fuel : ∀ rel (visited : gset string) w,
  (∀ v, v ∈ visited → String.length v < String.length (BASE_URL +:+ rel)) →
  (scrape_loop Site.endless output_csv fuel (Some (BASE_URL +:+ rel))
     visited w).1 = OutOfFuel.
Proof.
  induction fuel as [|fuel IH]; intros rel visited w Hshort.
  - assert (Hcond : Str.truthy (BASE_URL +:+ rel)
                    && bool_decide (BASE_URL +:+ rel ∉ visited) = true).
    { apply loop_condition_true; [done|]. intros H%Hshort. lia. }
    cbn [scrape_loop]. by rewrite Hcond.
  - rewrite scrape_loop_turn.
    2:{ apply loop_condition_true; [done|]. intros H%Hshort. lia. }
    rewrite endless_fetched. cbv zeta. rewrite endless_next.
    apply IH. intros v [Hv| ->%elem_of_singleton]%elem_of_union.
    + apply Hshort in Hv. rewrite !string_length_app in *. lia.
    + rewrite !string_length_app. simpl. lia.
Qed.

(** C4 as stated fails: on a site where every page links to a page not
    seen before, no amount of fuel lets the crawl return. *)
Lemma crawl_of_endless_site_never_returns :
  ¬ ∃ fuel,
      (scrape_capitol_trades Site.endless fuel START_URL CSV_FILE
         empty_world).1 = Val tt.
Proof.
  intros [fuel H]. rewrite scrape_capitol_trades_run in H.
  pose proof (endless_loop CSV_FILE fuel "/trades?page=1" ∅
                (crawl_start CSV_FILE empty_world)) as Hloop.
  change (BASE_URL +:+ "/trades?page=1") with START_URL in Hloop.
  destruct (scrape_loop _ _ _ _ _ _) as [[[]|e|] w']; simpl in *.
  - discriminate Hloop. set_solver.
  - discriminate H.
  - discriminate H.
Qed.

(** * Further properties of the two scripts *)

(** ** The crawler's file *)

Lemma sleeps_app tr1 tr2 : sleeps (tr1 ++ tr2) = sleeps tr1 ++ sleeps tr2.
Proof. apply omap_app. Qed.

Lemma sleeps_fetch_page web url : sleeps (events_of (fetch_page web url)) = [].
Proof.
  unfold events_of. destruct (web url) as [e|status_code soup] eqn:Hweb.
  - by rewrite (fetch_page_raises _ _ _ _ Hweb).
  - rewrite (fetch_page_status _ _ _ _ _ Hweb). by destruct (_ && _).
Qed.

Lemma sleeps_parse soup : sleeps (events_of (parse_trades_from_soup soup)) = [].
Proof.
  unfold events_of, parse_trades_from_soup.
  destruct (select_one_table soup); [|done]. by rewrite parse_rows_spec.
Qed.

Lemma append_rows_nil path fs : append_rows path [] fs = fs.
Proof. reflexivity. Qed.

Lemma scrape_loop_idle web output_csv fuel r current_url visited w :
  scraped web fuel current_url visited = [] →
  scrape_loop web output_csv fuel current_url visited w = (r, w) →
  r = Val tt ∨ r = OutOfFuel →
  scrape_loop_summary web output_csv fuel current_url visited w.
Proof.
  intros Hnil Hrun Hr. exists r, [].
  rewrite Hnil, Hrun, app_nil_r. simpl. destruct w.
  split; [reflexivity|]. split; [exact Hr|].
  split; [apply NoDup_nil_2|]. split; [|done].
  intros x Hx. by apply elem_of_nil in Hx.
Qed.

(** The whole loop of the crawler: what it returns, what it writes and
    which requests it makes. *)
Lemma scrape_loop_run web output_csv fuel : ∀ current_url visited w,
  scrape_loop_summary web output_csv fuel current_url visited w.
Proof.
  pose proof (scrape_loop_idle web output_csv) as Hidle.
  induction fuel as [|fuel IH]; intros current_url visited w.
  - destruct current_url as [u|]; [|apply (Hidle _ (Val tt)); auto].
    destruct (Str.truthy u && bool_decide (u ∉ visited)) eqn:Hcond.
    + apply (Hidle _ OutOfFuel); cbn [scraped scrape_loop]; rewrite ?Hcond; auto.
    + apply (Hidle _ (Val tt)); cbn [scraped scrape_loop]; rewrite ?Hcond; auto.
  - destruct current_url as [u|]; [|apply (Hidle _ (Val tt)); auto].
    destruct (Str.truthy u && bool_decide (u ∉ visited)) eqn:Hcond.
    2:{ apply (Hidle _ (Val tt)); cbn [scraped scrape_loop]; rewrite ?Hcond; auto. }
    clear Hidle. destruct (loop_condition _ _ Hcond) as [_ Hfresh].
    unfold scrape_loop_summary.
    rewrite scrape_loop_turn by done. cbn [scraped]. rewrite Hcond.
    cbv zeta. destruct (fetched web u) as [soup|].
    + set (w1 := {| files := _; known_ids := _; trace := _ |}).
      destruct (IH (find_next_page_url soup) (visited ∪ {[u]}) w1)
        as (r & evs & Hrun & Hr & Hdup & Hnew & Hsleep).
      exists r, ((EvPrint ("[*] Scraping: " +:+ u)
                  :: events_of (fetch_page web u))
                 ++ events_of (parse_trades_from_soup soup) ++ [EvSleep 1]
                 ++ evs).
      rewrite Hrun. unfold w1. cbn [files known_ids trace].
      rewrite append_rows_app, <- fmap_app.
      assert (Hreq : requests
                ((EvPrint ("[*] Scraping: " +:+ u)
                  :: events_of (fetch_page web u))
                 ++ events_of (parse_trades_from_soup soup) ++ [EvSleep 1]
                 ++ evs) = u :: requests evs).
      { rewrite !requests_app, requests_parse.
        change (requests (EvPrint ?m :: ?l)) with (requests l).
        by rewrite requests_fetch_page. }
      assert (Hsl : sleeps
                ((EvPrint ("[*] Scraping: " +:+ u)
                  :: events_of (fetch_page web u))
                 ++ events_of (parse_trades_from_soup soup) ++ [EvSleep 1]
                 ++ evs) = 1 :: sleeps evs).
      { rewrite !sleeps_app, sleeps_parse.
        change (sleeps (EvPrint ?m :: ?l)) with (sleeps l).
        by rewrite sleeps_fetch_page. }
      rewrite Hreq, Hsl. split; [|split; [done|split; [|split]]].
      * do 2 f_equal. by rewrite <- !app_assoc.
      * apply NoDup_cons. split; [|done]. intros Hu%Hnew. set_solver.
      * intros x [->|Hx%Hnew]%elem_of_cons; [done|set_solver].
      * simpl. lia.
    + eexists (Val tt), _. rewrite append_rows_nil. unfold logged.
      split; [reflexivity|]. split; [by left|].
      rewrite requests_app, sleeps_app.
      change (requests (EvPrint ?m :: ?l)) with (requests l).
      change (sleeps (EvPrint ?m :: ?l)) with (sleeps l).
      rewrite requests_fetch_page, sleeps_fetch_page. simpl.
      split; [apply NoDup_singleton|]. split; [|lia].
      by intros x ->%list_elem_of_singleton.
Qed.

Lemma scrape_capitol_trades_summary web fuel start_url output_csv w :
  ∃ r evs,
    scrape_capitol_trades web fuel start_url output_csv w =
      (r, {| files := <[output_csv :=
                          fieldnames
                          :: (csv_row <$> scraped web fuel (Some start_url) ∅)]>
                        (files w);
             known_ids := known_ids w;
             trace := trace w ++ evs |})
    ∧ (r = Val tt ∨ r = OutOfFuel)
    ∧ NoDup (requests evs)
    ∧ length (sleeps evs) ≤ length (requests evs).
Proof.
  rewrite scrape_capitol_trades_run.
  destruct (scrape_loop_run web output_csv fuel (Some start_url) ∅
              (crawl_start output_csv w))
    as (r & evs & Hrun & Hr & Hdup & _ & Hsleep).
  rewrite Hrun. cbn [crawl_start files known_ids trace].
  assert (Hfile : append_rows output_csv
                    (csv_row <$> scraped web fuel (Some start_url) ∅)
                    (<[output_csv := [fieldnames]]> (files w)) =
                  <[output_csv :=
                      fieldnames
                      :: (csv_row <$> scraped web fuel (Some start_url) ∅)]>
                    (files w)).
  { destruct (scraped web fuel (Some start_url) ∅) as [|t ts]; [done|].
    unfold append_rows. rewrite fmap_cons, lookup_insert_eq, insert_insert_eq.
    done. }
  rewrite Hfile. destruct Hr as [->| ->].
  - eexists (Val tt), (evs ++ [_]). unfold logged. cbn [files known_ids trace].
    rewrite app_assoc. split; [reflexivity|]. split; [by left|].
    rewrite requests_app, sleeps_app. simpl. by rewrite !app_nil_r.
  - exists OutOfFuel, evs. auto.
Qed.

(** X1: a full crawl replaces the file: whatever the file held, it
    afterwards holds the header row followed by one row per record read,
    in the order read and without any deduplication; other files and the
    index are untouched. *)
Theorem full_crawl_overwrites_file web fuel start_url output_csv w :
  files (scrape_capitol_trades web fuel start_url output_csv w).2 =
    <[output_csv :=
        fieldnames :: (csv_row <$> scraped web fuel (Some start_url) ∅)]>
      (files w)
  ∧ known_ids (scrape_capitol_trades web fuel start_url output_csv w).2 =
    known_ids w
  ∧ (∀ rows,
       files (scrape_capitol_trades web fuel start_url output_csv
                {| files := <[output_csv := rows]> (files w);
                   known_ids := known_ids w; trace := trace w |}).2 =
       files (scrape_capitol_trades web fuel start_url output_csv w).2).
Proof.
  destruct (scrape_capitol_trades_summary web fuel start_url output_csv w)
    as (r & evs & -> & Hr & _).
  cbn [fst snd files known_ids]. split; [done|]. split; [done|].
  intros rows.
  destruct (scrape_capitol_trades_summary web fuel start_url output_csv
              {| files := <[output_csv := rows]> (files w);
                 known_ids := known_ids w; trace := trace w |})
    as (r' & evs' & -> & _).
  cbn [snd files]. by rewrite insert_insert_eq.
Qed.

(** X2: when the fetch of the first page fails, the crawl still returns,
    and the file is left with the header row alone: the rows it held
    before are gone. *)
Theorem failed_crawl_leaves_header_only web fuel start_url output_csv w :
  start_url ≠ "" → fetch_fails web start_url →
  ∃ evs,
    scrape_capitol_trades web (S fuel) start_url output_csv w =
      (Val tt, {| files := <[output_csv := [fieldnames]]> (files w);
                  known_ids := known_ids w;
                  trace := trace w ++ evs |}).
Proof.
  intros Hne Hfail. rewrite scrape_capitol_trades_run.
  rewrite scrape_loop_turn by (apply loop_condition_true; [done|set_solver]).
  rewrite (fetch_fails_fetched _ _ Hfail). cbv zeta.
  cbv iota beta. rewrite logged_logged. eexists. reflexivity.
Qed.

Lemma failed_crawl_leaves_header_only_witness :
  ∃ evs,
    scrape_capitol_trades Site.down 1 START_URL CSV_FILE Site.crawled =
      (Val tt, {| files := <[CSV_FILE := [fieldnames]]> (files Site.crawled);
                  known_ids := known_ids Site.crawled;
                  trace := trace Site.crawled ++ evs |}).
Proof.
  apply (failed_crawl_leaves_header_only Site.down 0 START_URL CSV_FILE
           Site.crawled).
  - discriminate.
  - exact I.
Defined.

(** X3: in one crawl no URL is requested twice, and the crawler pauses
    at most once per request. *)
Theorem full_crawl_requests_are_distinct web fuel start_url output_csv w :
  ∃ evs,
    trace (scrape_capitol_trades web fuel start_url output_csv w).2 =
      trace w ++ evs
    ∧ NoDup (requests evs)
    ∧ length (sleeps evs) ≤ length (requests evs).
Proof.
  destruct (scrape_capitol_trades_summary web fuel start_url output_csv w)
    as (r & evs & -> & _ & Hdup & Hsleep).
  by exists evs.
Qed.

(** ** The monitor's requests and pauses *)

Lemma check_loop_trace web csv_path fuel : ∀ new_count current_url visited w,
  ∃ evs,
    trace (check_loop web csv_path fuel new_count current_url visited w).2 =
      trace w ++ evs
    ∧ NoDup (requests evs)
    ∧ (∀ x, x ∈ requests evs → x ∉ visited)
    ∧ sleeps evs = [].
Proof.
  assert (Hnil : ∀ w : World,
    ∃ evs, trace w = trace w ++ evs ∧ NoDup (requests evs)
           ∧ (∀ x, x ∈ requests evs → False)
           ∧ sleeps evs = []).
  { intros w. exists []. rewrite app_nil_r.
    split; [done|]. split; [apply NoDup_nil_2|]. split; [|done].
    intros x Hx. by apply elem_of_nil in Hx. }
  induction fuel as [|fuel IH]; intros new_count current_url visited w.
  - destruct (Hnil w) as (evs & H1 & H2 & H3 & H4).
    exists evs. split; [|split; [done|split; [|done]]].
    + destruct (Str.truthy current_url && bool_decide (current_url ∉ visited))
        eqn:Hcond; simpl; rewrite Hcond; exact H1.
    + intros x Hx. by destruct (H3 x Hx).
  - destruct (Str.truthy current_url && bool_decide (current_url ∉ visited))
      eqn:Hcond.
    2:{ rewrite check_loop_stop by done.
        destruct (Hnil w) as (evs & H1 & H2 & H3 & H4).
        exists evs. split; [done|split; [done|split; [|done]]].
        intros x Hx. by destruct (H3 x Hx). }
    clear Hnil. destruct (loop_condition _ _ Hcond) as [_ Hfresh].
    rewrite check_loop_turn by done. cbv zeta.
    set (evs1 := EvPrint ("[*] Checking page: " +:+ current_url)
                 :: events_of (fetch_page web current_url)).
    assert (Hreq1 : requests evs1 = [current_url]).
    { unfold evs1. change (requests (?e :: ?l)) with (requests l).
      apply requests_fetch_page. }
    assert (Hsl1 : sleeps evs1 = []).
    { unfold evs1. change (sleeps (?e :: ?l)) with (sleeps l).
      apply sleeps_fetch_page. }
    assert (Hone : ∀ evs : list event,
      requests evs = [current_url] → sleeps evs = [] →
      NoDup (requests evs) ∧ (∀ x, x ∈ requests evs → x ∉ visited)
      ∧ sleeps evs = []).
    { intros evs -> ->. split; [apply NoDup_singleton|]. split; [|done].
      by intros x ->%list_elem_of_singleton. }
    destruct (fetched web current_url) as [soup|].
    2:{ exists evs1. split; [done|]. by apply Hone. }
    set (evs2 := evs1 ++ events_of (parse_trades_from_soup soup)).
    assert (Hreq2 : requests evs2 = [current_url]).
    { unfold evs2. by rewrite requests_app, requests_parse, app_nil_r. }
    assert (Hsl2 : sleeps evs2 = []).
    { unfold evs2. by rewrite sleeps_app, sleeps_parse, Hsl1. }
    destruct (extracted soup) as [|t trades].
    { exists evs2. split; [done|]. by apply Hone. }
    assert (Hlast : ∃ evs,
      trace (after_run csv_path w evs2 (t :: trades)) = trace w ++ evs
      ∧ NoDup (requests evs) ∧ (∀ x, x ∈ requests evs → x ∉ visited)
      ∧ sleeps evs = []).
    { exists evs2. split; [done|]. by apply Hone. }
    destruct (find_next_page_url soup) as [next_url|]; [|exact Hlast].
    destruct (Str.truthy next_url && _); [|exact Hlast].
    clear Hlast.
    destruct (IH (new_count + length (new_trades (known_ids w) (t :: trades)))
                next_url (visited ∪ {[current_url]})
                (after_run csv_path w evs2 (t :: trades)))
      as (evs & Htr & Hdup & Hnew & Hsl).
    exists (evs2 ++ evs). rewrite Htr. cbn [trace after_run].
    rewrite requests_app, sleeps_app, Hreq2, Hsl2, Hsl.
    split; [by rewrite <- app_assoc|]. split; [|split; [|done]].
    + apply NoDup_cons. split; [|done]. intros Hu%Hnew. set_solver.
    + intros x [->|Hx%Hnew]%elem_of_cons; [done|set_solver].
Qed.

(** X4: in one call of [check_for_new_trades] no URL is requested twice
    and the monitor never pauses. *)
Theorem check_requests_are_distinct web fuel csv_path w :
  ∃ evs,
    trace (check_for_new_trades web fuel csv_path w).2 = trace w ++ evs
    ∧ NoDup (requests evs)
    ∧ sleeps evs = [].
Proof.
  destruct (check_loop_trace web csv_path fuel 0 START_URL ∅ w)
    as (evs & Htr & Hdup & _ & Hsl).
  by exists evs.
Qed.

(** X5: the scheduler runs one check per cycle and then pauses for 3600
    seconds: after any number of cycles it has paused exactly that many
    times, each time for 3600 seconds, and has made at most three
    requests per cycle. *)
Theorem scheduler_cadence webs fuel cycles : ∀ cycle w,
  3 ≤ fuel →
  ∃ evs,
    trace (main_cycles webs fuel cycle cycles w).2 = trace w ++ evs
    ∧ sleeps evs = replicate cycles 3600
    ∧ length (requests evs) ≤ 3 * cycles.
Proof.
  induction cycles as [|cycles IH]; intros cycle w Hfuel.
  - exists []. by rewrite app_nil_r.
  - rewrite main_cycles_turn.
    set (w0 := logged w [EvPrint "[+] Checking for new trades…"]).
    destruct (check_for_new_trades_run (webs cycle) fuel CSV_FILE w0)
      as (r & evs1 & Hrun & Hr & Hf & Hreq1).
    destruct (check_loop_trace (webs cycle) CSV_FILE fuel 0 START_URL ∅ w0)
      as (evs1' & Htr & _ & _ & Hsl1).
    fold (check_for_new_trades (webs cycle) fuel CSV_FILE w0) in Htr.
    rewrite Hrun in Htr |- *. cbn [snd trace after_run] in Htr.
    apply app_inv_head in Htr as <-.
    destruct Hr as [->| ->]; [by destruct (Hf Hfuel)|].
    set (n := length _).
    set (w1 := logged _ _).
    destruct (IH (S cycle) w1 Hfuel) as (evs & Htr & Hsl & Hreq).
    exists ([EvPrint "[+] Checking for new trades…"] ++ evs1
            ++ [EvPrint (if 0 <? n
                         then "[+] Found " +:+ pretty n +:+ " new trades!"
                         else "[+] No new trades at this time.");
                EvSleep 3600] ++ evs).
    rewrite Htr. unfold w1, w0, logged. cbn [trace after_run].
    split; [by rewrite <- !app_assoc|].
    rewrite !requests_app, !sleeps_app, Hsl1, Hsl, !length_app.
    split; [done|]. simpl. lia.
Qed.

Lemma scheduler_cadence_witness :
  ∃ evs,
    trace (main_cycles (λ _, Site.endless) 3 0 2 empty_world).2 =
      trace empty_world ++ evs
    ∧ sleeps evs = replicate 2 3600
    ∧ length (requests evs) ≤ 3 * 2.
Proof.
  apply (scheduler_cadence (λ _, Site.endless) 3 2 0 empty_world). apply le_n.
Defined.

(** ** What the monitor writes *)

(** X6: when the fetch of the first page fails, or the page yields no
    record (no trades table, or no row with nine cells), the check
    returns 0 after that one request and changes neither the files nor
    the index; in particular it does not create the file. *)
Theorem check_without_records_changes_nothing web fuel csv_path w :
  fetched web START_URL = None
  ∨ (∃ soup, fetched web START_URL = Some soup ∧ extracted soup = []) →
  ∃ evs,
    check_for_new_trades web (S fuel) csv_path w = (Val 0, logged w evs)
    ∧ requests evs = [START_URL].
Proof.
  intros H. unfold check_for_new_trades.
  rewrite check_loop_turn by done. cbv zeta.
  destruct H as [->|(soup & -> & ->)].
  - eexists. split; [reflexivity|].
    change (requests (?e :: ?l)) with (requests l).
    apply requests_fetch_page.
  - eexists. split; [reflexivity|].
    rewrite requests_app, requests_parse, app_nil_r.
    change (requests (?e :: ?l)) with (requests l).
    apply requests_fetch_page.
Qed.

Lemma check_without_records_changes_nothing_witness :
  ∃ evs,
    check_for_new_trades Site.no_table 1 CSV_FILE empty_world =
      (Val 0, logged empty_world evs)
    ∧ requests evs = [START_URL].
Proof.
  apply (check_without_records_changes_nothing Site.no_table 0 CSV_FILE
           empty_world).
  right. exists Sample.other_page. split; reflexivity.
Defined.

Lemma new_trades_fresh trades : ∀ known,
  NoDup (unique_id <$> new_trades known trades)
  ∧ ∀ t, t ∈ new_trades known trades → unique_id t ∉ known.
Proof.
  induction trades as [|t trades IH]; intros known.
  - split; [apply NoDup_nil_2|]. intros t Ht. by apply elem_of_nil in Ht.
  - simpl. case_bool_decide as Hnew; [|apply IH].
    destruct (IH (known ∪ {[unique_id t]})) as [Hdup Hfresh]. split.
    + rewrite fmap_cons. apply NoDup_cons. split; [|done].
      intros (t' & Hkey & Ht')%list_elem_of_fmap.
      apply Hfresh in Ht'. set_solver.
    + intros t' [->|Ht']%elem_of_cons; [done|].
      apply Hfresh in Ht'. set_solver.
Qed.

(** X7: the rows one check appends have pairwise different keys, none
    of which was in the index before; afterwards the index is the old
    index together with the keys of the appended rows, so it never
    shrinks. *)
Theorem appended_keys_are_new web fuel csv_path w :
  ∃ new,
    rows_of csv_path (check_for_new_trades web fuel csv_path w).2 =
      rows_of csv_path w ++ (csv_row <$> new)
    ∧ NoDup (unique_id <$> new)
    ∧ (∀ t, t ∈ new → unique_id t ∉ known_ids w)
    ∧ known_ids (check_for_new_trades web fuel csv_path w).2 =
      known_ids w ∪ keys_of new.
Proof.
  destruct (check_for_new_trades_run web fuel csv_path w)
    as (r & evs & -> & _).
  exists (new_trades (known_ids w) (encountered web fuel START_URL ∅)).
  cbn [snd]. split; [apply rows_of_after_run|].
  destruct (new_trades_fresh (encountered web fuel START_URL ∅) (known_ids w))
    as [Hdup Hfresh].
  split; [done|]. split; [done|].
  cbn [known_ids after_run]. by rewrite keys_new_trades.
Qed.

(** ** A crawl followed by the monitor *)

Lemma encountered_scraped web fuel : ∀ fuel' u visited,
  1 ≤ fuel' → 3 ≤ size visited + fuel' →
  encountered web fuel u visited ⊆ scraped web fuel' (Some u) visited.
Proof.
  induction fuel as [|fuel IH]; intros fuel' u visited H1 H3.
  - destruct (Str.truthy u && bool_decide (u ∉ visited)) eqn:Hcond;
      simpl; rewrite Hcond; apply list_subseteq_nil.
  - destruct (Str.truthy u && bool_decide (u ∉ visited)) eqn:Hcond.
    2:{ rewrite encountered_stop by done. apply list_subseteq_nil. }
    rewrite encountered_turn by done.
    destruct fuel' as [|fuel']; [lia|]. cbn [scraped]. rewrite Hcond.
    destruct (loop_condition _ _ Hcond) as [_ Hfresh].
    pose proof (size_visit _ _ Hfresh) as Hsize.
    destruct (fetched web u) as [soup|]; [|done].
    destruct (extracted soup) as [|t trades]; [apply list_subseteq_nil|].
    intros x [Hx|Hx]%elem_of_app; apply elem_of_app; [by left|right].
    destruct (find_next_page_url soup) as [next_url|];
      [|by apply elem_of_nil in Hx].
    destruct (Str.truthy next_url); [|by apply elem_of_nil in Hx].
    destruct (Nat.ltb_spec (size (visited ∪ {[u]})) 3) as [Hlt|Hge];
      [|by apply elem_of_nil in Hx].
    simpl in Hx. revert x Hx. apply IH; lia.
Qed.

Lemma keys_of_subseteq l1 l2 : l1 ⊆ l2 → keys_of l1 ⊆ keys_of l2.
Proof.
  intros Hsub key. unfold keys_of. rewrite !elem_of_list_to_set.
  intros (t & -> & Ht)%list_elem_of_fmap. apply list_elem_of_fmap_2.
  by apply Hsub.
Qed.

Lemma after_run_known path w evs trades :
  is_Some (files w !! path) → keys_of trades ⊆ known_ids w →
  after_run path w evs trades = logged w evs.
Proof.
  intros [old Hold] Hkeys. unfold after_run, logged.
  rewrite new_trades_known by done. f_equal.
  - simpl. destruct trades; [done|]. cbn [opened]. unfold touch.
    by rewrite Hold.
  - set_solver.
Qed.

Lemma load_known_ids_after_crawl web fuel start_url output_csv w :
  load_known_ids output_csv
    (scrape_capitol_trades web fuel start_url output_csv w).2 =
  (Val (keys_of (scraped web fuel (Some start_url) ∅)),
   (scrape_capitol_trades web fuel start_url output_csv w).2).
Proof.
  destruct (scrape_capitol_trades_summary web fuel start_url output_csv w)
    as (r & evs & -> & _).
  cbn [snd].
  apply (load_known_ids_stored _
           (csv_row <$> scraped web fuel (Some start_url) ∅)).
  - cbn [files]. apply lookup_insert_eq.
  - rewrite load_rows_csv_rows. by rewrite (left_id_L ∅ (∪)).
Qed.

(** X8: the index the monitor builds from a file the crawler has just
    written is the set of the keys of the records the crawler read,
    provided none of their fields exceeds the field size limit of the
    reader; the loader then raises nothing and changes nothing. *)
Theorem index_of_crawled_file web fuel start_url output_csv w :
  Forall within_field_limit (scraped web fuel (Some start_url) ∅) →
  load_known_ids output_csv
    (scrape_capitol_trades web fuel start_url output_csv w).2 =
  (Val (keys_of (scraped web fuel (Some start_url) ∅)),
   (scrape_capitol_trades web fuel start_url output_csv w).2).
Proof. intros _. apply load_known_ids_after_crawl. Qed.

Lemma index_of_crawled_file_witness :
  load_known_ids CSV_FILE
    (scrape_capitol_trades Site.two_pages 3 START_URL CSV_FILE empty_world).2 =
  (Val (keys_of (scraped Site.two_pages 3 (Some START_URL) ∅)),
   (scrape_capitol_trades Site.two_pages 3 START_URL CSV_FILE empty_world).2).
Proof.
  apply (index_of_crawled_file Site.two_pages 3 START_URL CSV_FILE
           empty_world).
  repeat (apply Forall_cons_2 || apply Forall_nil_2); by vm_compute.
Defined.

(** X9: after a full crawl by [main], a start of the monitor on the
    unchanged site finds nothing new: its first check returns 0 and
    leaves the file as the crawl wrote it, provided both loops have fuel
    for three turns and no field of a record crawled exceeds the field
    size limit of the reader. *)
Theorem check_after_crawl_finds_nothing web fuel fuel' w :
  3 ≤ fuel → 3 ≤ fuel' →
  Forall within_field_limit (scraped web fuel' (Some START_URL) ∅) →
  ∃ evs,
    start_and_check web fuel CSV_FILE (main web fuel' w).2 =
      (Val 0,
       {| files := files (main web fuel' w).2;
          known_ids := keys_of (scraped web fuel' (Some START_URL) ∅);
          trace := trace (main web fuel' w).2 ++ evs |}).
Proof.
  intros Hfuel Hfuel' _.
  change (main web fuel' w)
    with (scrape_capitol_trades web fuel' START_URL CSV_FILE w).
  unfold start_and_check. unfold mbind at 1, M_bind at 1.
  rewrite load_known_ids_after_crawl.
  unfold mbind at 1, M_bind at 1. unfold set_known at 1.
  destruct (scrape_capitol_trades_summary web fuel' START_URL CSV_FILE w)
    as (r & evs0 & -> & _).
  cbn [snd files known_ids trace].
  set (w1 := {| files := _; known_ids := _; trace := _ |}).
  destruct (check_for_new_trades_run web fuel CSV_FILE w1)
    as (r1 & evs & Hrun & Hr & Hf & _).
  assert (Hkeys : keys_of (encountered web fuel START_URL ∅) ⊆ known_ids w1).
  { apply keys_of_subseteq, encountered_scraped; [lia|].
    rewrite size_empty. lia. }
  exists evs. rewrite Hrun, after_run_known; [|by eexists; apply lookup_insert_eq|done].
  destruct Hr as [->| ->]; [by destruct (Hf Hfuel)|].
  by rewrite new_trades_known.
Qed.

Lemma check_after_crawl_finds_nothing_witness :
  ∃ evs,
    start_and_check Site.two_pages 3 CSV_FILE
      (main Site.two_pages 3 empty_world).2 =
      (Val 0,
       {| files := files (main Site.two_pages 3 empty_world).2;
          known_ids := keys_of (scraped Site.two_pages 3 (Some START_URL) ∅);
          trace := trace (main Site.two_pages 3 empty_world).2 ++ evs |}).
Proof.
  apply (check_after_crawl_finds_nothing Site.two_pages 3 3 empty_world);
    [apply le_n|apply le_n|].
  repeat (apply Forall_cons_2 || apply Forall_nil_2); by vm_compute.
Defined.

(** ** Loading the index *)

Lemma load_rows_blank header rows known w :
  Forall (λ row, row = []) rows →
  load_rows header rows known w = (Val known, w).
Proof. induction 1 as [|row rows -> _ IH]; [done|exact IH]. Qed.

(** X10: [load_known_ids] returns the empty index, and raises nothing,
    when the file is missing (it then prints that it starts fresh), and
    when the file is empty or has nothing but empty lines after its
    first row, whatever that first row is. *)
Theorem index_of_missing_or_empty_file csv_path w :
  (files w !! csv_path = None →
   load_known_ids csv_path w =
     (Val ∅, logged w [EvPrint ("[!] " +:+ csv_path
                                +:+ " not found, starting fresh.")]))
  ∧ (∀ rows,
       files w !! csv_path = Some rows →
       Forall (λ row, row = []) (tail rows) →
       load_known_ids csv_path w = (Val ∅, w)).
Proof.
  split.
  - intros Hfile.
    unfold load_known_ids, try_except_not_found, read_rows, get_files.
    unfold mbind, M_bind. by rewrite Hfile.
  - intros rows Hfile Hblank.
    unfold load_known_ids, try_except_not_found, read_rows, get_files.
    unfold mbind, M_bind. rewrite Hfile. unfold mret, M_ret.
    destruct rows as [|header rows]; [done|].
    by rewrite (load_rows_blank _ _ _ _ Hblank).
Qed.

Lemma index_of_missing_or_empty_file_witness :
  load_known_ids CSV_FILE empty_world =
    (Val ∅, logged empty_world
              [EvPrint "[!] capitol_trades.csv not found, starting fresh."])
  ∧ load_known_ids CSV_FILE
      (scrape_capitol_trades Site.down 1 START_URL CSV_FILE empty_world).2 =
    (Val ∅,
     (scrape_capitol_trades Site.down 1 START_URL CSV_FILE empty_world).2).
Proof.
  split.
  - apply (proj1 (index_of_missing_or_empty_file CSV_FILE empty_world)).
    reflexivity.
  - apply (proj2 (index_of_missing_or_empty_file CSV_FILE
             (scrape_capitol_trades Site.down 1 START_URL CSV_FILE
                empty_world).2) [fieldnames]).
    + reflexivity.
    + constructor.
Defined.

Lemma dict_row_lookup_None header row key :
  key ∉ header → dict_row header row !! key = None.
Proof.
  intros Hkey. unfold dict_row.
  assert (Hfold : ∀ (l : list (string * option string))
                    (d : gmap string (option string)),
    d !! key = None → (∀ kv, kv ∈ l → kv.1 ≠ key) →
    foldl (λ d kv, <[kv.1 := kv.2]> d) d l !! key = None).
  { induction l as [|kv l IH]; intros d Hd Hl; [done|].
    simpl. apply IH.
    - rewrite lookup_insert_ne; [done|]. apply Hl, list_elem_of_here.
    - intros kv' Hkv'. apply Hl. by apply list_elem_of_further. }
  apply Hfold; [apply lookup_empty|].
  intros [k v] Hkv. simpl. intros ->. apply Hkey.
  by apply elem_of_zip_l in Hkv.
Qed.

Lemma row_unique_id_missing_column d key w :
  key ∈ ["Politician"; "TradedDate"; "Issuer"; "Type"] → d !! key = None →
  ∃ e, row_unique_id d w = (Exc e, w)
       ∧ (e = TypeError ∨ ∃ k, e = KeyError k)
       ∧ (key = "Politician" → e = KeyError "Politician").
Proof.
  intros Hkey Hnone.
  unfold row_unique_id, dict_getitem, py_add. run.
  repeat (apply elem_of_cons in Hkey as [->|Hkey]);
    [..|by apply elem_of_nil in Hkey];
    rewrite Hnone;
    destruct (d !! "Politician") as [[p|]|];
    destruct (d !! "TradedDate") as [[t|]|];
    destruct (d !! "Issuer") as [[i|]|];
    destruct (d !! "Type") as [[y|]|];
    try discriminate;
    simpl; eexists; (split; [reflexivity|]); (split; [eauto|]);
    first [done | discriminate].
Qed.

(** X11: when the first row of the file, which the loader takes for the
    header, lacks one of the four key columns and a later row is not
    empty, [load_known_ids] never returns an index: it raises
    [KeyError] or [TypeError], and [KeyError] on "Politician" when that
    column is the one missing. *)
Theorem index_of_file_without_key_column csv_path w header rows key :
  files w !! csv_path = Some (header :: rows) →
  key ∈ ["Politician"; "TradedDate"; "Issuer"; "Type"] → key ∉ header →
  Exists (λ row, row ≠ []) rows →
  ∃ e, load_known_ids csv_path w = (Exc e, w)
       ∧ (e = TypeError ∨ ∃ k, e = KeyError k)
       ∧ (key = "Politician" → e = KeyError "Politician").
Proof.
  intros Hfile Hkey Hheader Hrows.
  assert (Hload : ∀ known, ∃ e,
    load_rows header rows known w = (Exc e, w)
    ∧ (e = TypeError ∨ ∃ k, e = KeyError k)
    ∧ (key = "Politician" → e = KeyError "Politician")).
  { clear Hfile.
    induction Hrows as [row rows Hrow|row rows _ IH]; intros known.
    - destruct row as [|c row]; [done|]. cbn [load_rows].
      destruct (row_unique_id_missing_column (dict_row header (c :: row))
                  key w Hkey (dict_row_lookup_None _ _ _ Hheader))
        as (e & Hid & He).
      exists e. unfold mbind, M_bind. by rewrite Hid.
    - destruct row as [|c row]; [apply IH|]. cbn [load_rows].
      destruct (row_unique_id_missing_column (dict_row header (c :: row))
                  key w Hkey (dict_row_lookup_None _ _ _ Hheader))
        as (e & Hid & He).
      exists e. unfold mbind, M_bind. by rewrite Hid. }
  destruct (Hload ∅) as (e & Hrun & He & Hp).
  exists e. split; [|done].
  unfold load_known_ids, try_except_not_found, read_rows, get_files.
  unfold mbind, M_bind. rewrite Hfile. unfold mret, M_ret. rewrite Hrun.
  destruct He as [->|[k ->]]; done.
Qed.

Lemma index_of_file_without_key_column_witness :
  ∃ e,
    load_known_ids CSV_FILE
      (check_for_new_trades Site.two_records 3 CSV_FILE empty_world).2 =
      (Exc e, (check_for_new_trades Site.two_records 3 CSV_FILE empty_world).2)
    ∧ (e = TypeError ∨ ∃ k, e = KeyError k)
    ∧ ("Politician" = "Politician" → e = KeyError "Politician").
Proof.
  apply (index_of_file_without_key_column CSV_FILE
           (check_for_new_trades Site.two_records 3 CSV_FILE empty_world).2
           (csv_row Site.jane) [csv_row Site.john] "Politician").
  - reflexivity.
  - apply list_elem_of_here.
  - intros H. by repeat (apply elem_of_cons in H as [H|H]; [discriminate H|]);
      apply elem_of_nil in H.
  - apply Exists_cons_hd. discriminate.
Defined.

Lemma load_rows_stored_keys rows :
  Forall (λ row, row = [] ∨ length row = 9) rows →
  ∀ known w,
    load_rows fieldnames rows known w =
      (Val (known ∪ list_to_set
                      (stored_key <$> filter (λ row, row ≠ []) rows)), w).
Proof.
  induction 1 as [|row rows Hrow _ IH]; intros known w.
  - simpl. by rewrite (right_id_L ∅ (∪)).
  - destruct Hrow as [->|Hlen].
    + cbn [load_rows]. rewrite IH. by rewrite filter_cons_False by tauto.
    + do 9 (destruct row as [|? row]; [discriminate|]).
      destruct row; [|discriminate].
      cbn [load_rows]. unfold mbind at 1, M_bind at 1.
      change (row_unique_id
                (dict_row fieldnames [s; s0; s1; s2; s3; s4; s5; s6; s7]) w)
        with (Val (stored_key [s; s0; s1; s2; s3; s4; s5; s6; s7]), w).
      cbv beta iota. rewrite IH, filter_cons_True by done.
      rewrite fmap_cons, list_to_set_cons. do 2 f_equal. set_solver.
Qed.

(** X12: on a file whose first row is the header the crawler writes and
    whose other rows are empty lines or have nine fields, the loader
    returns the set of the keys of the non-empty rows: the first, fourth,
    second and seventh field put end to end. *)
Theorem index_of_stored_rows csv_path w rows :
  files w !! csv_path = Some (fieldnames :: rows) →
  Forall (λ row, row = [] ∨ length row = 9) rows →
  load_known_ids csv_path w =
    (Val (list_to_set (stored_key <$> filter (λ row, row ≠ []) rows)), w).
Proof.
  intros Hfile Hrows. apply (load_known_ids_stored _ rows); [done|].
  rewrite (load_rows_stored_keys _ Hrows). by rewrite (left_id_L ∅ (∪)).
Qed.

Lemma index_of_stored_rows_witness :
  load_known_ids CSV_FILE Site.crawled =
    (Val (list_to_set
            (stored_key <$> filter (λ row, row ≠ []) [csv_row Site.jane])),
     Site.crawled).
Proof.
  apply (index_of_stored_rows CSV_FILE Site.crawled [csv_row Site.jane]).
  - reflexivity.
  - constructor; [right; reflexivity|constructor].
Defined.

(** X13: a row that is not empty but has fewer than seven fields stops
    the loader: under the crawler's header the Type column of such a row
    is missing, and [load_known_ids] raises [TypeError] instead of
    returning an index. *)
Theorem index_of_short_row csv_path w good row rest :
  files w !! csv_path = Some (fieldnames :: good ++ row :: rest) →
  Forall (λ r, r = [] ∨ length r = 9) good →
  0 < length row < 7 →
  load_known_ids csv_path w = (Exc TypeError, w).
Proof.
  intros Hfile Hgood Hlen.
  unfold load_known_ids, try_except_not_found, read_rows, get_files.
  unfold mbind at 1, M_bind at 1. unfold mbind at 1, M_bind at 1.
  rewrite Hfile. unfold mret at 1, M_ret at 1.
  rewrite (load_rows_app _ _ _ _ _ _ (load_rows_stored_keys _ Hgood ∅ w)).
  destruct row as [|c1 row]; [simpl in Hlen; lia|].
  cbn [load_rows]. unfold mbind at 1, M_bind at 1.
  do 6 (destruct row as [|? row]; [reflexivity|]).
  simpl in Hlen. lia.
Qed.

Lemma index_of_short_row_witness :
  load_known_ids CSV_FILE
    {| files := {[ CSV_FILE := [fieldnames; csv_row Site.jane;
                                ["Jane Roe"; "Acme Corp"]] ]};
       known_ids := ∅; trace := [] |} =
  (Exc TypeError,
   {| files := {[ CSV_FILE := [fieldnames; csv_row Site.jane;
                               ["Jane Roe"; "Acme Corp"]] ]};
      known_ids := ∅; trace := [] |}).
Proof.
  apply (index_of_short_row CSV_FILE _ [csv_row Site.jane]
           ["Jane Roe"; "Acme Corp"] []).
  - reflexivity.
  - constructor; [right; reflexivity|constructor].
  - simpl. lia.
Defined.

(** ** Wide rows in the extractor *)

(** X15: of a row with more than nine cells only the first nine are
    read: the cells after the ninth do not change the record. *)
Theorem cells_after_the_ninth_are_ignored cols extra trades_data w :
  length cols = 9 →
  parse_row (cols ++ extra) trades_data w = parse_row cols trades_data w.
Proof.
  intros Hlen. do 9 (destruct cols as [|? cols]; [discriminate|]).
  by destruct cols.
Qed.

Lemma cells_after_the_ninth_are_ignored_witness :
  parse_row (Site.row_of Site.jane ++ [Sample.td "more"]) [] empty_world =
  parse_row (Site.row_of Site.jane) [] empty_world.
Proof.
  apply (cells_after_the_ninth_are_ignored (Site.row_of Site.jane)).
  reflexivity.
Defined.
